(** * Rotational-moulding production model: constraint checks and bookkeeping

    A shallow embedding of the classes of [one.py] (Mold, Spider, Arm,
    BalancingWeight, RTXMachine, Order) and of [Mold.check_compatibility_with]
    as it also appears in [molds_class_complete.py], followed by the
    properties proved about them.

    Conventions.
    - Python numbers that carry physical quantities (volumes, torques,
      temperatures, times, tolerances) are rationals [Q], and the decimal
      literals [0.02], [0.1] and [1.0] are the rationals they denote.
      Python computes exactly on [int]s only ([int / int] is already a
      float), and floats round.  So what is proved about these quantities
      is of three kinds: statements through the very operations a method
      performs, in the order it performs them, which use no law of
      arithmetic; statements that use only what rounding keeps (the order
      of numbers, signs, monotonicity); and statements restricted to
      integer arguments.
    - Counters and quantities are unbounded integers [Z].
    - A method that can raise returns a [result]; a method of a mutable object
      is a computation in the state-and-exception monad [M Self], so that
      what it leaves untouched is a theorem and not a typing fact.
    - [dict] is [gmap string]; iteration order over a dict is only used where
      the outcome does not depend on it. *)

From Stdlib Require Import QArith Qabs Qround Lqa.
From stdpp Require Import gmap strings list pretty sorting.

(** ** Exceptions, results, and the method monad *)

Inductive exn : Type :=
| ZeroDivisionError
| IndexError.

Inductive result (A : Type) : Type :=
| Raise (e : exn)
| Return (v : A).
Arguments Raise {A} e.
Arguments Return {A} v.

#[global] Instance result_ret : MRet result := λ A v, Return v.
#[global] Instance result_bind : MBind result := λ A B f r,
  match r with
  | Raise e => Raise e
  | Return v => f v
  end.

(** A method body: reads and writes [self : S], returns an [A] or raises. *)
Definition M (S A : Type) : Type := S → result A * S.

#[global] Instance M_ret {S} : MRet (M S) := λ A v self, (Return v, self).
#[global] Instance M_bind {S} : MBind (M S) := λ A B f m self,
  match m self with
  | (Raise e, self') => (Raise e, self')
  | (Return v, self') => f v self'
  end.

Definition get {S} : M S S := λ self, (Return self, self).
Definition modify {S} (f : S → S) : M S unit := λ self, (Return tt, f self).
Definition liftR {S A} (r : result A) : M S A := λ self, (r, self).

(** [l[i]] for a non-negative index. *)
Definition py_index {S A} (l : list A) (i : nat) : M S A :=
  match l !! i with
  | Some x => mret x
  | None => liftR (Raise IndexError)
  end.

(** [for x in l: body] where the body may [return]: [Some v] is an early
    return of [v], [None] is falling off the end of the loop. *)
Fixpoint for_each {S A R} (l : list A) (body : A → M S (option R)) : M S (option R) :=
  match l with
  | [] => mret None
  | x :: l' =>
      r ← body x;
      match r with
      | Some v => mret (Some v)
      | None => for_each l' body
      end
  end.

(** ** Numbers *)

(** [x / y] (true division). *)
Definition py_truediv (x y : Q) : result Q :=
  if Qeq_bool y 0 then Raise ZeroDivisionError else Return (x / y)%Q.

(** [sum(l)]: left to right, starting from 0. *)
Definition py_sum (l : list Q) : Q := fold_left Qplus l 0%Q.

#[global] Instance Qge_dec : RelDecision (flip Qle).
Proof.
  intros x y. unfold flip.
  destruct (Qle_bool y x) eqn:E; [left | right].
  - apply Qle_bool_iff, E.
  - intros H. apply Qle_bool_iff in H. congruence.
Defined.

(** [sorted(l, reverse=True)] on numbers. *)
Definition sorted_reverse (l : list Q) : list Q := merge_sort (flip Qle) l.

(** ** 1. Mold *)

Record Mold : Type := mkMold {
  mold_id : string;
  volume : Q;
  weight : Q;
  heating_time : Q;
  heating_temperature : Q;
  cooling_time : Q;
  mounting_time : Q;
  distance_from_center : Q;
  available_quantity : Z;
  (* only in molds_class_complete.py; no method below reads it *)
  mold_type : string
}.

Definition calculate_torque (self : Mold) : Q :=
  (weight self * distance_from_center self)%Q.

Definition default_tolerance : Q := 2 # 100.

(** [Mold.check_compatibility_with]; the body is the same in [one.py] and in
    [molds_class_complete.py]. *)
Definition check_compatibility_with
    (self other_mold : Mold) (temp_tolerance time_tolerance : Q) : result bool :=
  temp_diff ← py_truediv
    (Qabs (heating_temperature self - heating_temperature other_mold))
    (heating_temperature self);
  time_diff ← py_truediv
    (Qabs (heating_time self - heating_time other_mold))
    (heating_time self);
  mret (Qle_bool temp_diff temp_tolerance && Qle_bool time_diff time_tolerance).

(** ** 2. Spider *)

Record Spider : Type := mkSpider {
  spider_type : string;
  attachment_sites : Z;
  spider_volume : Q;
  spider_weight : Q;
  attachment_distance : Q
}.

(** ** 4. BalancingWeight (declared before Arm, which reads its fields) *)

Record BalancingWeight : Type := mkBalancingWeight {
  weight_options : list Q;
  position : string;
  bw_weight : Q
}.

(** The inner [while weight <= remaining_torque] loop.  [None]: the loop has
    not finished within [fuel] iterations. *)
Fixpoint while_fits (fuel : nat) (weight : Q) (remaining_torque : Q) (weights_needed : Z)
    : option (Q * Z) :=
  match fuel with
  | O => None
  | S fuel' =>
      if Qle_bool weight remaining_torque
      then while_fits fuel' weight (remaining_torque - weight)%Q (weights_needed + 1)%Z
      else Some (remaining_torque, weights_needed)
  end.

(** The outer [for weight in sorted(..., reverse=True)] loop. *)
Fixpoint for_weights (fuel : nat) (ws : list Q) (remaining_torque : Q) (weights_needed : Z)
    : option (Q * Z) :=
  match ws with
  | [] => Some (remaining_torque, weights_needed)
  | weight :: ws' =>
      match while_fits fuel weight remaining_torque weights_needed with
      | None => None
      | Some (remaining_torque', weights_needed') =>
          for_weights fuel ws' remaining_torque' weights_needed'
      end
  end.

(** [BalancingWeight.minimize_weight_count].  The method assigns only to its
    locals.  Each [while] loop may run for at most [fuel] tests of its
    condition. *)
Definition minimize_weight_count (fuel : nat) (self : BalancingWeight) (target_torque : Q)
    : option Z :=
  let weights_needed := 0%Z in
  let remaining_torque := Qabs target_torque in
  snd <$> for_weights fuel (sorted_reverse (weight_options self))
            remaining_torque weights_needed.

(** ** 3. Arm *)

Record Arm : Type := mkArm {
  arm_id : string;
  mounting_spots : Z;
  max_volume : Q;
  weight_capacity : Q;
  torque_left_side : Q;
  torque_right_side : Q;
  current_molds : list Mold;
  current_spiders : list Spider
}.

Definition set_torque_left_side (v : Q) (self : Arm) : Arm :=
  mkArm (arm_id self) (mounting_spots self) (max_volume self) (weight_capacity self)
        v (torque_right_side self) (current_molds self) (current_spiders self).

Definition set_torque_right_side (v : Q) (self : Arm) : Arm :=
  mkArm (arm_id self) (mounting_spots self) (max_volume self) (weight_capacity self)
        (torque_left_side self) v (current_molds self) (current_spiders self).

(* 3.1 *)
Definition check_spatial_constraint : M Arm bool :=
  self ← get;
  let total_volume := py_sum (volume <$> current_molds self) in
  let total_volume := (total_volume + py_sum (spider_volume <$> current_spiders self))%Q in
  mret (Qle_bool total_volume (max_volume self)).

(* 3.3 *)
Definition calculate_balance_torque : M Arm Q :=
  self ← get;
  let net_torque := (torque_right_side self - torque_left_side self)%Q in
  let net_torque :=
    fold_left (λ net_torque mold, (net_torque + calculate_torque mold)%Q)
              (current_molds self) net_torque in
  mret net_torque.

(* 3.2 *)
Definition check_balance_constraint (tolerance : Q) : M Arm bool :=
  balance_torque ← calculate_balance_torque;
  mret (Qle_bool (Qabs balance_torque) tolerance).

Definition default_balance_tolerance : Q := 1 # 10.

(* 3.4 *)
Definition add_balancing_weight (weight : Q) (position : string) : M Arm unit :=
  if String.eqb position "left" then
    modify (λ self, set_torque_left_side (torque_left_side self + weight * 1)%Q self)
  else if String.eqb position "right" then
    modify (λ self, set_torque_right_side (torque_right_side self + weight * 1)%Q self)
  else mret tt.

(* 3.5 *)
Definition check_torque_balance (balancing_weights : list BalancingWeight) : M Arm bool :=
  self ← get;
  let temp_left := torque_left_side self in
  let temp_right := torque_right_side self in
  let '(temp_left, temp_right) :=
    fold_left (λ '(temp_left, temp_right) weight,
                 if String.eqb (position weight) "left"
                 then ((temp_left + bw_weight weight)%Q, temp_right)
                 else (temp_left, (temp_right + bw_weight weight)%Q))
              balancing_weights (temp_left, temp_right) in
  mret (Qle_bool (Qabs (temp_right - temp_left)) (1 # 10)).

(* 3.6 *)
Definition check_temperature_compatibility : M Arm bool :=
  self ← get;
  if (length (current_molds self) <=? 1)%nat then mret true else
  base ← py_index (current_molds self) 0;
  let base_temp := heating_temperature base in
  r ← for_each (drop 1 (current_molds self)) (λ mold,
        self ← get;
        anchor ← py_index (current_molds self) 0;
        ok ← liftR (check_compatibility_with anchor mold default_tolerance default_tolerance);
        if negb ok then mret (Some false) else mret None);
  match r with
  | Some b => mret b
  | None => mret true
  end.

(* 3.7 *)
Definition check_duration_compatibility : M Arm bool :=
  self ← get;
  if (length (current_molds self) <=? 1)%nat then mret true else
  r ← for_each (seq 0 (length (current_molds self) - 1)) (λ i,
        self ← get;
        this ← py_index (current_molds self) i;
        next ← py_index (current_molds self) (i + 1);
        ok ← liftR (check_compatibility_with this next default_tolerance default_tolerance);
        if negb ok then mret (Some false) else mret None);
  match r with
  | Some b => mret b
  | None => mret true
  end.

(** ** 5. RTXMachine *)

Record RTXMachine : Type := mkRTXMachine {
  machine_id : string;
  machine_count : Z;
  arms_list : list Arm;
  current_cycle : Z;
  daily_cycles_completed : Z;
  max_daily_cycles : Z
}.

(** [RTXMachine.__init__] *)
Definition RTXMachine_init (machine_id : string) (machine_count : Z) : RTXMachine :=
  mkRTXMachine machine_id machine_count [] 0 0 7.

Definition set_arms_list (v : list Arm) (self : RTXMachine) : RTXMachine :=
  mkRTXMachine (machine_id self) (machine_count self) v (current_cycle self)
               (daily_cycles_completed self) (max_daily_cycles self).

Definition set_current_cycle (v : Z) (self : RTXMachine) : RTXMachine :=
  mkRTXMachine (machine_id self) (machine_count self) (arms_list self) v
               (daily_cycles_completed self) (max_daily_cycles self).

Definition set_daily_cycles_completed (v : Z) (self : RTXMachine) : RTXMachine :=
  mkRTXMachine (machine_id self) (machine_count self) (arms_list self) (current_cycle self)
               v (max_daily_cycles self).

Definition set_max_daily_cycles (v : Z) (self : RTXMachine) : RTXMachine :=
  mkRTXMachine (machine_id self) (machine_count self) (arms_list self) (current_cycle self)
               (daily_cycles_completed self) v.

(** Run a method of the arm object stored at [arms_list[i]]; whatever the
    method does to that arm is seen through the list.  The loop below only
    passes indices of the list. *)
Definition on_arm {A} (i : nat) (method : M Arm A) : M RTXMachine A := λ self,
  match arms_list self !! i with
  | None => (Raise IndexError, self)
  | Some arm =>
      let '(r, arm') := method arm in
      (r, set_arms_list (<[i := arm']> (arms_list self)) self)
  end.

(* 5.1 *)
Definition validate_arrangement : M RTXMachine (bool * string) :=
  self ← get;
  r ← for_each (seq 0 (length (arms_list self))) (λ i,
        ok ← on_arm i check_spatial_constraint;
        if negb ok then
          arm ← on_arm i get;
          mret (Some (false, "Spatial constraint violated on arm " +:+ arm_id arm))
        else
        ok ← on_arm i (check_balance_constraint default_balance_tolerance);
        if negb ok then
          arm ← on_arm i get;
          mret (Some (false, "Balance constraint violated on arm " +:+ arm_id arm))
        else
        ok ← on_arm i check_temperature_compatibility;
        if negb ok then
          arm ← on_arm i get;
          mret (Some (false, "Temperature compatibility failed on arm " +:+ arm_id arm))
        else
        ok ← on_arm i check_duration_compatibility;
        if negb ok then
          arm ← on_arm i get;
          mret (Some (false, "Duration compatibility failed on arm " +:+ arm_id arm))
        else mret None);
  match r with
  | Some v => mret v
  | None => mret (true, "All constraints satisfied")
  end.

(* 5.2 *)
Definition execute_cycle : M RTXMachine (bool * string) :=
  '(is_valid, message) ← validate_arrangement;
  if negb is_valid then mret (false, message) else
  self ← get;
  if (daily_cycles_completed self >=? max_daily_cycles self)%Z then
    mret (false, "Daily cycle limit reached")
  else
  modify (λ self, set_current_cycle (current_cycle self + 1)%Z self);;
  modify (λ self, set_daily_cycles_completed (daily_cycles_completed self + 1)%Z self);;
  self ← get;
  mret (true, "Cycle " +:+ pretty (current_cycle self) +:+ " completed successfully").

(* 5.3 *)
Definition change_arrangement (setup_time_loss : Z) : M RTXMachine string :=
  let cycles_lost := setup_time_loss in
  modify (λ self, set_max_daily_cycles (Z.max 0 (max_daily_cycles self - cycles_lost)) self);;
  mret ("Arrangement changed, " +:+ pretty cycles_lost +:+ " cycles lost to setup").

(** ** 6. Order *)

Record Order : Type := mkOrder {
  order_id : string;
  mold_requirements : gmap string Z;
  deadline : string;
  completion_status : gmap string Z;
  is_complete : bool
}.

(** [Order.__init__] *)
Definition Order_init (order_id : string) (mold_requirements : gmap string Z)
    (deadline : string) : Order :=
  mkOrder order_id mold_requirements deadline ∅ false.

Definition set_completion_status (v : gmap string Z) (self : Order) : Order :=
  mkOrder (order_id self) (mold_requirements self) (deadline self) v (is_complete self).

Definition set_is_complete (v : bool) (self : Order) : Order :=
  mkOrder (order_id self) (mold_requirements self) (deadline self) (completion_status self) v.

(** [d[k]] read right after [d[k]] was assigned or [k in d] was tested. *)
Definition tracked (d : gmap string Z) (k : string) : Z := default 0%Z (d !! k).

(* 6.1 *)
Definition update_progress (mold_id : string) (quantity_produced : Z) : M Order unit :=
  self ← get;
  (if bool_decide (mold_id ∈ dom (completion_status self)) then mret tt
   else modify (λ self, set_completion_status (<[mold_id := 0%Z]> (completion_status self)) self));;
  modify (λ self, set_completion_status
            (<[mold_id := (tracked (completion_status self) mold_id + quantity_produced)%Z]>
               (completion_status self)) self);;
  self ← get;
  match mold_requirements self !! mold_id with
  | Some required =>
      if (tracked (completion_status self) mold_id >=? required)%Z then
        modify (λ self, set_completion_status
                  (<[mold_id := required]> (completion_status self)) self)
      else mret tt
  | None => mret tt
  end.

(* 6.2 *)
Definition check_completion : M Order bool :=
  self ← get;
  r ← for_each (map_to_list (mold_requirements self)) (λ '(mold_id, required_qty),
        self ← get;
        let completed_qty := default 0%Z (completion_status self !! mold_id) in
        if (completed_qty <? required_qty)%Z then
          modify (set_is_complete false);;
          mret (Some false)
        else mret None);
  match r with
  | Some b => mret b
  | None => modify (set_is_complete true);; mret true
  end.

(** Running a method on an object: the returned value and the object after. *)
Definition returned {S A} (m : M S A) (self : S) : result A := fst (m self).
Definition after {S A} (m : M S A) (self : S) : S := snd (m self).

(** ** Further methods of the same classes

    The methods of [one.py] and of [MoldDatabase] in
    [molds_class_complete.py] that the sections above do not need. *)

(* 1.3 *)
Definition check_availability (self : Mold) (required_quantity : Z) : bool :=
  (required_quantity <=? available_quantity self)%Z.

(* 2.2 *)
Definition check_spatial_fit (self : Spider) (arm_volume : Q) : bool :=
  Qle_bool (spider_volume self) arm_volume.

(** [BalancingWeight.__init__] *)
Definition BalancingWeight_init (weight_options : list Q) (position : string)
    : BalancingWeight :=
  mkBalancingWeight weight_options position 0.

Definition set_bw_weight (v : Q) (self : BalancingWeight) : BalancingWeight :=
  mkBalancingWeight (weight_options self) (position self) v.

(** [x in l] on a list of numbers: some element is [==] to [x]. *)
Definition py_in (x : Q) (l : list Q) : bool := existsb (λ y, Qeq_bool y x) l.

(* 4.1 *)
Definition apply_weight (weight_value : Q) : M BalancingWeight bool :=
  self ← get;
  if py_in weight_value (weight_options self) then
    modify (set_bw_weight weight_value);;
    mret true
  else mret false.



(** [for x in l: body] where the body updates a local accumulator and may
    raise, but does not [return]. *)
Fixpoint for_acc {S A B} (l : list A) (body : B → A → M S B) (acc : B) : M S B :=
  match l with
  | [] => mret acc
  | x :: l' =>
      acc' ← body acc x;
      for_acc l' body acc'
  end.

(** *** MoldDatabase (molds_class_complete.py)

    [self.molds] is a dict whose iteration order shows in what
    [get_compatible_molds] returns, so it is a list of key-value pairs in
    insertion order; a key is looked up from the front. *)

Record MoldDatabase : Type := mkMoldDatabase {
  csv_file : string;
  molds : list (string * Mold)
}.

Definition set_molds (v : list (string * Mold)) (self : MoldDatabase) : MoldDatabase :=
  mkMoldDatabase (csv_file self) v.

(** [d.get(k)] *)
Fixpoint dict_get {V} (d : list (string * V)) (k : string) : option V :=
  match d with
  | [] => None
  | (k', v) :: d' => if String.eqb k' k then Some v else dict_get d' k
  end.

(** [k in d] *)
Definition dict_in {V} (k : string) (d : list (string * V)) : bool :=
  match dict_get d k with
  | Some _ => true
  | None => false
  end.

(** The object stored at [d[k]] is changed by [f]; [d] keeps its keys. *)
Fixpoint dict_alter {V} (f : V → V) (k : string) (d : list (string * V))
    : list (string * V) :=
  match d with
  | [] => []
  | (k', v) :: d' =>
      if String.eqb k' k then (k', f v) :: d' else (k', v) :: dict_alter f k d'
  end.

Definition set_available_quantity (v : Z) (self : Mold) : Mold :=
  mkMold (mold_id self) (volume self) (weight self) (heating_time self)
         (heating_temperature self) (cooling_time self) (mounting_time self)
         (distance_from_center self) v (mold_type self).

Definition get_mold (mold_id : string) : M MoldDatabase (option Mold) :=
  self ← get;
  mret (dict_get (molds self) mold_id).

Definition get_compatible_molds (reference_mold : Mold) (tolerance : Q)
    : M MoldDatabase (list Mold) :=
  self ← get;
  for_acc (snd <$> molds self)
    (λ (compatible : list Mold) (mold : Mold),
       if negb (String.eqb (mold_id mold) (mold_id reference_mold)) then
         ok ← liftR (check_compatibility_with reference_mold mold tolerance tolerance);
         if (ok : bool) then mret (compatible ++ [mold]) else mret compatible
       else mret compatible)
    [].

Definition update_availability (mold_id : string) (quantity_used : Z)
    : M MoldDatabase unit :=
  self ← get;
  if dict_in mold_id (molds self) then
    modify (λ self,
      set_molds
        (dict_alter (λ mold, set_available_quantity
                               (available_quantity mold - quantity_used)%Z mold)
                    mold_id (molds self))
        self)
  else mret tt.

(** * Vocabulary of the properties *)

(** The loop of [for_each] on values instead of computations. *)
Fixpoint scan {A R} (f : A → result (option R)) (l : list A) : result (option R) :=
  match l with
  | [] => Return None
  | x :: l' =>
      match f x with
      | Raise e => Raise e
      | Return (Some v) => Return (Some v)
      | Return None => scan f l'
      end
  end.




(** What one iteration of either compatibility loop does with the outcome of
    [check_compatibility_with], and what the method returns after the loop. *)
Definition verdict (r : result bool) : result (option bool) :=
  match r with
  | Raise e => Raise e
  | Return ok => Return (if negb ok then Some false else None)
  end.

Definition conclude (r : result (option bool)) : result bool :=
  match r with
  | Raise e => Raise e
  | Return (Some b) => Return b
  | Return None => Return true
  end.

Definition compatible (a b : Mold) : result bool :=
  check_compatibility_with a b default_tolerance default_tolerance.

(** The pair compared in iteration [i] of the duration loop. *)
Definition adjacent_pair (molds : list Mold) (i : nat) : result bool :=
  match molds !! i with
  | None => Raise IndexError
  | Some this =>
      match molds !! (i + 1)%nat with
      | None => Raise IndexError
      | Some next => compatible this next
      end
  end.

Definition passes (check : M Arm bool) (arm : Arm) : Prop :=
  returned check arm = Return true.

Definition all_pass (arm : Arm) : Prop :=
  passes check_spatial_constraint arm
  ∧ passes (check_balance_constraint default_balance_tolerance) arm
  ∧ passes check_temperature_compatibility arm
  ∧ passes check_duration_compatibility arm.

(** One iteration of the loop of [validate_arrangement], on the values the
    four checks return for the arm. *)
Definition arm_verdict (arm : Arm) : result (option (bool * string)) :=
  match returned check_spatial_constraint arm with
  | Raise e => Raise e
  | Return false => Return (Some (false, "Spatial constraint violated on arm " +:+ arm_id arm))
  | Return true =>
  match returned (check_balance_constraint default_balance_tolerance) arm with
  | Raise e => Raise e
  | Return false => Return (Some (false, "Balance constraint violated on arm " +:+ arm_id arm))
  | Return true =>
  match returned check_temperature_compatibility arm with
  | Raise e => Raise e
  | Return false =>
      Return (Some (false, "Temperature compatibility failed on arm " +:+ arm_id arm))
  | Return true =>
  match returned check_duration_compatibility arm with
  | Raise e => Raise e
  | Return false =>
      Return (Some (false, "Duration compatibility failed on arm " +:+ arm_id arm))
  | Return true => Return None
  end end end end.

Definition verdict_of_loop (r : result (option (bool * string))) : result (bool * string) :=
  match r with
  | Raise e => Raise e
  | Return (Some v) => Return v
  | Return None => Return (true, "All constraints satisfied")
  end.

(** The total recorded for [mold_id] by one [update_progress]. *)
Definition recorded_total (self : Order) (mold_id : string) (quantity_produced : Z) : Z :=
  let total := (tracked (completion_status self) mold_id + quantity_produced)%Z in
  match mold_requirements self !! mold_id with
  | Some required => if (total >=? required)%Z then required else total
  | None => total
  end.

(** A sequence of [update_progress] calls, in order. *)
Fixpoint update_progress_all (calls : list (string * Z)) : M Order unit :=
  match calls with
  | [] => mret tt
  | (mold_id, quantity_produced) :: calls' =>
      update_progress mold_id quantity_produced;;
      update_progress_all calls'
  end.

(** No tracked total exceeds the requirement for its mold. *)
Definition within_requirements (self : Order) : Prop :=
  ∀ mold_id total required,
    completion_status self !! mold_id = Some total →
    mold_requirements self !! mold_id = Some required →
    (total <= required)%Z.


(** The sum of a list of numbers, from the right. *)
Definition total (l : list Q) : Q := foldr Qplus 0%Q l.

(** A sequence of [apply_weight] calls, in order. *)
Fixpoint apply_weights (values : list Q) : M BalancingWeight unit :=
  match values with
  | [] => mret tt
  | v :: values' =>
      apply_weight v;;
      apply_weights values'
  end.

(** Every requirement of the order is covered by the tracked total. *)
Definition requirements_met (self : Order) : Prop :=
  ∀ mold_id required,
    mold_requirements self !! mold_id = Some required →
    (required <= tracked (completion_status self) mold_id)%Z.

(** [k] calls of [execute_cycle], whatever each returns. *)
Fixpoint execute_cycles (k : nat) : M RTXMachine unit :=
  match k with
  | O => mret tt
  | S k' =>
      execute_cycle;;
      execute_cycles k'
  end.

(** Every mold of the arm that is used as a divisor by a compatibility
    check (every mold but the last) has a heating temperature and a heating
    time other than 0. *)
Definition nonzero_divisors (arm : Arm) : Prop :=
  ∀ i mold,
    current_molds arm !! i = Some mold →
    (S i < length (current_molds arm))%nat →
    ¬ (heating_temperature mold == 0)%Q ∧ ¬ (heating_time mold == 0)%Q.

(** What [get_compatible_molds] keeps: a mold with another id than the
    reference that the reference accepts at the tolerance. *)
Definition is_candidate (reference_mold : Mold) (tolerance : Q) (mold : Mold) : bool :=
  negb (String.eqb (mold_id mold) (mold_id reference_mold))
  && match check_compatibility_with reference_mold mold tolerance tolerance with
     | Return ok => ok
     | Raise _ => false
     end.


(** * Example objects *)

Definition mold_at (temperature time : Q) : Mold :=
  mkMold "A1" 10 5 time temperature 2 1 (1 # 2) 100 "UNKNOWN".

Definition empty_arm : Arm := mkArm "arm-1" 4 10 100 0 0 [] [].

Definition anchor_drift : Arm :=
  mkArm "arm-1" 4 100 100 0 0 [mold_at 100 3; mold_at 102 3; mold_at 98 3] [].

Definition adjacent_creep : Arm :=
  mkArm "arm-1" 4 100 100 0 0 [mold_at 100 3; mold_at 102 3; mold_at 104 3] [].

Definition single_mold_arm : Arm :=
  mkArm "arm-1" 4 100 100 0 0 [mold_at 0 0] [].

Definition loaded_arm : Arm := mkArm "arm-1" 4 10 100 0 0 [mold_at 200 3] [].

Definition overfull_arm : Arm :=
  mkArm "arm-2" 4 10 100 0 0 [mold_at 200 3; mold_at 200 3] [].

Definition idle_machine (done_today : Z) : RTXMachine :=
  mkRTXMachine "rtx" 1 [empty_arm] 41 done_today 7.


Definition workshop_weights : BalancingWeight :=
  mkBalancingWeight [1%Q; 5%Q; 2%Q] "left" 0.

Definition spider_8 : Spider := mkSpider "2-way" 8 3 20 (1 # 10).

Definition fitted_arm : Arm :=
  mkArm "arm-3" 4 20 100 0 0 [mold_at 200 3] [spider_8].

Definition coin_weights : BalancingWeight := mkBalancingWeight [1%Q; 3%Q; 4%Q] "left" 0.

Definition cold_anchor_arm : Arm :=
  mkArm "arm-4" 4 100 100 5 0 [mold_at 0 3; mold_at 200 3] [].

Definition mold_named (name : string) (temperature time : Q) (count : Z) : Mold :=
  mkMold name 10 5 time temperature 2 1 (1 # 2) count "TUB".

Definition catalog : MoldDatabase :=
  mkMoldDatabase "molds.csv"
    [("CCIT 25", mold_named "CCIT 25" 200 3 2);
     ("CCIT 50", mold_named "CCIT 50" 203 3 1);
     ("CCIT 60", mold_named "CCIT 60" 270 10 4)].

Definition paired_arm : Arm :=
  mkArm "arm-5" 4 100 100 5 0 [mold_at 200 3; mold_at 203 3] [].

(** * Properties *)

(** ** Mold compatibility *)

Section Compatibility.
Local Open Scope Q_scope.

Lemma py_truediv_zero x y : y == 0 → py_truediv x y = Raise ZeroDivisionError.
Proof. intros H. unfold py_truediv. by rewrite (Qeq_eq_bool _ _ H). Qed.

Lemma py_truediv_nonzero x y : ¬ y == 0 → py_truediv x y = Return (x / y).
Proof.
  intros H. unfold py_truediv.
  destruct (Qeq_bool y 0) eqn:E; [|done].
  by apply Qeq_bool_eq in E.
Qed.

(** The value of the method when neither divisor is zero. *)
Lemma check_compatibility_with_value self other tt1 tt2 :
  ¬ heating_temperature self == 0 → ¬ heating_time self == 0 →
  check_compatibility_with self other tt1 tt2 =
    Return (Qle_bool (Qabs (heating_temperature self - heating_temperature other)
                        / heating_temperature self) tt1
            && Qle_bool (Qabs (heating_time self - heating_time other)
                           / heating_time self) tt2).
Proof.
  intros Ht Hd. unfold check_compatibility_with.
  by rewrite (py_truediv_nonzero _ _ Ht), (py_truediv_nonzero _ _ Hd).
Qed.

Lemma check_compatibility_with_raises self other tt1 tt2 e :
  check_compatibility_with self other tt1 tt2 = Raise e →
  e = ZeroDivisionError ∧ (heating_temperature self == 0 ∨ heating_time self == 0).
Proof.
  unfold check_compatibility_with, py_truediv.
  destruct (Qeq_bool (heating_temperature self) 0) eqn:Et; cbn.
  - intros [= <-]. split; [done|]. left. by apply Qeq_bool_eq.
  - destruct (Qeq_bool (heating_time self) 0) eqn:Ed; cbn; [|done].
    intros [= <-]. split; [done|]. right. by apply Qeq_bool_eq.
Qed.

(** C5.  [check_compatibility_with] raises ZeroDivisionError exactly when
    [self.heating_temperature == 0] or [self.heating_time == 0]; it raises
    nothing else; and when both are nonzero it returns a boolean. *)
Theorem check_compatibility_with_division_fault self other tt1 tt2 :
  (check_compatibility_with self other tt1 tt2 = Raise ZeroDivisionError
     ↔ heating_temperature self == 0 ∨ heating_time self == 0)
  ∧ (∀ e, check_compatibility_with self other tt1 tt2 = Raise e → e = ZeroDivisionError)
  ∧ (¬ heating_temperature self == 0 → ¬ heating_time self == 0 →
     ∃ b, check_compatibility_with self other tt1 tt2 = Return b).
Proof.
  split; [split|split].
  - intros H. by apply check_compatibility_with_raises in H as [_ H].
  - intros [Ht | Hd]; unfold check_compatibility_with.
    + by rewrite (py_truediv_zero _ _ Ht).
    + rewrite (py_truediv_zero _ _ Hd). unfold py_truediv.
      destruct (Qeq_bool (heating_temperature self) 0); reflexivity.
  - intros e H. by apply check_compatibility_with_raises in H as [-> _].
  - intros Ht Hd. eexists. by apply check_compatibility_with_value.
Qed.

(** C7.  Tolerance monotonicity: a pair compatible at tolerance [t1] is
    compatible at every [t2 >= t1]. *)
Theorem check_compatibility_with_tolerance_monotone a b t1 t2 :
  ¬ heating_temperature a == 0 → ¬ heating_time a == 0 →
  check_compatibility_with a b t1 t1 = Return true →
  t1 <= t2 →
  check_compatibility_with a b t2 t2 = Return true.
Proof.
  intros Ht Hd H Hle.
  rewrite check_compatibility_with_value in H |- * by done.
  injection H as H. f_equal.
  apply andb_true_iff in H as [H1 H2]. apply andb_true_iff.
  rewrite !Qle_bool_iff in *. split; eapply Qle_trans; eauto.
Qed.

End Compatibility.

Lemma check_compatibility_with_division_fault_witness :
  check_compatibility_with (mold_at 200 3) (mold_at 203 (306 # 100))
    default_tolerance default_tolerance = Return true.
Proof.
  destruct (check_compatibility_with_division_fault
              (mold_at 200 3) (mold_at 203 (306 # 100))
              default_tolerance default_tolerance) as (_ & _ & H).
  destruct H as [b Hb]; [by vm_compute | by vm_compute |].
  rewrite Hb. revert Hb. vm_compute. done.
Defined.

Lemma check_compatibility_with_tolerance_monotone_witness :
  check_compatibility_with (mold_at 200 3) (mold_at 203 (306 # 100)) (1 # 10) (1 # 10)
    = Return true.
Proof.
  apply (check_compatibility_with_tolerance_monotone _ _ default_tolerance (1 # 10)).
  - by vm_compute.
  - by vm_compute.
  - reflexivity.
  - by vm_compute.
Defined.

(** Unfold one layer of the method monad. *)
Ltac run_method :=
  unfold mbind, M_bind, mret, M_ret, result_bind, result_ret, get, modify, liftR;
  cbv beta iota.

(** ** Loops whose body leaves the object alone *)

Section ReadOnlyLoops.
Context {S A R : Type}.
Implicit Types (l : list A) (f : A → result (option R)) (body : A → M S (option R)).

Lemma for_each_scan l body f (self : S) :
  (∀ x, x ∈ l → body x self = (f x, self)) →
  for_each l body self = (scan f l, self).
Proof.
  induction l as [|x l IH]; intros Hbody; [done|].
  cbn. unfold mbind, M_bind.
  rewrite (Hbody x) by left.
  destruct (f x) as [e|[v|]]; [done..|].
  apply IH. intros y Hy. apply Hbody. by right.
Qed.

Lemma scan_None f l :
  scan f l = Return None ↔ ∀ x, x ∈ l → f x = Return None.
Proof.
  induction l as [|x l IH]; cbn.
  - split; [|done]. by intros _ y ?%elem_of_nil.
  - destruct (f x) as [e|[v|]] eqn:E.
    + split; [done|]. intros H. specialize (H x (list_elem_of_here _ _)). congruence.
    + split; [done|]. intros H. specialize (H x (list_elem_of_here _ _)). congruence.
    + rewrite IH. split.
      * intros H y [->|Hy]%elem_of_cons; auto.
      * intros H y Hy. apply H. by right.
Qed.

(** The loop stops at the first element whose body returns or raises. *)
Lemma scan_first f pre x post :
  (∀ y, y ∈ pre → f y = Return None) →
  f x ≠ Return None →
  scan f (pre ++ x :: post) = f x.
Proof.
  intros Hpre Hx. induction pre as [|y pre IH]; cbn.
  - destruct (f x) as [e|[v|]]; done.
  - rewrite (Hpre y) by left. apply IH. intros z Hz. apply Hpre. by right.
Qed.
End ReadOnlyLoops.

(** ** Arm: torque balance *)

Section TorqueBalance.
Local Open Scope Q_scope.



(** C10.  With a position other than ['left'] and ['right'],
    [add_balancing_weight] changes nothing on the arm, whereas
    [check_torque_balance] counts a weight at such a position on the
    right side. *)
Theorem add_balancing_weight_unknown_position (w : Q) (pos : string) (self : Arm) :
  pos ≠ "left" → pos ≠ "right" →
  add_balancing_weight w pos self = (Return tt, self)
  ∧ ∀ bw, position bw = pos →
      check_torque_balance [bw] self =
        (Return (Qle_bool (Qabs ((torque_right_side self + bw_weight bw)
                                 - torque_left_side self)) (1 # 10)),
         self).
Proof.
  intros Hl Hr. split.
  - unfold add_balancing_weight.
    apply String.eqb_neq in Hl, Hr. by rewrite Hl, Hr.
  - intros bw <-. unfold check_torque_balance. run_method.
    apply String.eqb_neq in Hl. cbn [fold_left]. by rewrite Hl.
Qed.
End TorqueBalance.

Lemma add_balancing_weight_unknown_position_witness :
  add_balancing_weight 5 "center" empty_arm = (Return tt, empty_arm)
  ∧ check_torque_balance [mkBalancingWeight [5%Q] "center" 5] empty_arm
    = (Return false, empty_arm).
Proof.
  destruct (add_balancing_weight_unknown_position 5 "center" empty_arm) as [H1 H2];
    [done | done |].
  split; [exact H1|].
  exact (H2 (mkBalancingWeight [5%Q] "center" 5) eq_refl).
Defined.

(** ** Arm: temperature and duration compatibility *)

Lemma conclude_scan_verdict {A} (g : A → result bool) (l : list A) :
  conclude (scan (λ x, verdict (g x)) l) = Return true ↔ ∀ x, x ∈ l → g x = Return true.
Proof.
  induction l as [|x l IH]; cbn.
  - split; [|done]. by intros _ y ?%elem_of_nil.
  - destruct (g x) as [e|[]] eqn:E; cbn.
    + split; [done|]. intros H. specialize (H x (list_elem_of_here _ _)). congruence.
    + rewrite IH. split.
      * intros H y [->|Hy]%elem_of_cons; auto.
      * intros H y Hy. apply H. by right.
    + split; [done|]. intros H. specialize (H x (list_elem_of_here _ _)). congruence.
Qed.

Lemma check_temperature_compatibility_run (self : Arm) :
  check_temperature_compatibility self =
    (match current_molds self with
     | anchor :: (_ :: _) as later =>
         conclude (scan (λ mold, verdict (compatible anchor mold)) later)
     | _ => Return true
     end, self).
Proof.
  unfold check_temperature_compatibility. run_method.
  destruct (current_molds self) as [|anchor [|m1 rest]] eqn:Hm; [done..|].
  cbn [length Nat.leb drop]. unfold py_index. cbn [lookup list_lookup]. run_method.
  erewrite for_each_scan with (f := λ mold, verdict (compatible anchor mold)).
  - by destruct (scan _ _) as [e|[b|]].
  - intros mold _. run_method. rewrite Hm. cbn [lookup list_lookup]. run_method.
    unfold compatible. by destruct (check_compatibility_with _ _ _ _) as [e|[]].
Qed.

Lemma check_duration_compatibility_run (self : Arm) :
  check_duration_compatibility self =
    (if (length (current_molds self) <=? 1)%nat then Return true
     else conclude (scan (λ i, verdict (adjacent_pair (current_molds self) i))
                         (seq 0 (length (current_molds self) - 1))),
     self).
Proof.
  unfold check_duration_compatibility. run_method.
  destruct (length (current_molds self) <=? 1)%nat; [done|].
  erewrite for_each_scan
    with (f := λ i, verdict (adjacent_pair (current_molds self) i)).
  - by destruct (scan _ _) as [e|[b|]].
  - intros i _. unfold py_index, adjacent_pair. run_method.
    destruct (current_molds self !! i) as [this|]; [|done]. run_method.
    destruct (current_molds self !! (i + 1)%nat) as [next|]; [|done]. run_method.
    unfold compatible. by destruct (check_compatibility_with _ _ _ _) as [e|[]].
Qed.

(** C8.  With at most one mold both checks return true.  In general the
    temperature check returns true exactly when the first mold is compatible
    (default tolerances) with every later mold, and the duration check
    exactly when every mold is compatible with its successor; neither
    touches the arm; and the two checks disagree on some arms, in both
    directions. *)
Theorem arm_compatibility_checks :
  (∀ self, (length (current_molds self) ≤ 1)%nat →
     check_temperature_compatibility self = (Return true, self)
     ∧ check_duration_compatibility self = (Return true, self))
  ∧ (∀ self, after check_temperature_compatibility self = self
     ∧ (returned check_temperature_compatibility self = Return true
        ↔ ∀ anchor j mold,
            current_molds self !! 0%nat = Some anchor →
            current_molds self !! S j = Some mold →
            compatible anchor mold = Return true))
  ∧ (∀ self, after check_duration_compatibility self = self
     ∧ (returned check_duration_compatibility self = Return true
        ↔ ∀ i this next,
            current_molds self !! i = Some this →
            current_molds self !! S i = Some next →
            compatible this next = Return true))
  ∧ (returned check_temperature_compatibility anchor_drift = Return true
     ∧ returned check_duration_compatibility anchor_drift = Return false)
  ∧ (returned check_temperature_compatibility adjacent_creep = Return false
     ∧ returned check_duration_compatibility adjacent_creep = Return true).
Proof.
  split; [|split; [|split; [|split]]].
  - intros self Hlen.
    rewrite check_temperature_compatibility_run, check_duration_compatibility_run.
    destruct (current_molds self) as [|m0 [|m1 rest]]; cbn in *; [done..|lia].
  - intros self. unfold after, returned.
    rewrite check_temperature_compatibility_run. cbn [fst snd]. split; [done|].
    destruct (current_molds self) as [|anchor [|m1 rest]].
    + split; [|done]. by intros _ ? ? ? [=].
    + split; [|done]. by intros _ ? [|?] ? _ [=].
    + rewrite conclude_scan_verdict. split.
      * intros H a j mold [= <-] Hj. apply H. by eapply list_elem_of_lookup_2.
      * intros H mold [j Hj]%list_elem_of_lookup. by apply (H anchor j mold).
  - intros self. unfold after, returned.
    rewrite check_duration_compatibility_run. cbn [fst snd]. split; [done|].
    destruct (length (current_molds self) <=? 1)%nat eqn:Hlen.
    + apply Nat.leb_le in Hlen. split; [|done].
      intros _ i this next Hi Hn. apply lookup_lt_Some in Hi, Hn. lia.
    + apply Nat.leb_gt in Hlen. rewrite conclude_scan_verdict. split.
      * intros H i this next Hi Hn.
        assert (i ∈ seq 0 (length (current_molds self) - 1)) as Hin.
        { apply elem_of_seq. apply lookup_lt_Some in Hn. lia. }
        specialize (H i Hin). unfold adjacent_pair in H.
        rewrite Hi in H. replace (i + 1)%nat with (S i) in H by lia. by rewrite Hn in H.
      * intros H i [_ Hi]%elem_of_seq. unfold adjacent_pair.
        destruct (lookup_lt_is_Some_2 (current_molds self) i) as [this Ht]; [lia|].
        destruct (lookup_lt_is_Some_2 (current_molds self) (S i)) as [next Hn]; [lia|].
        rewrite Ht. replace (i + 1)%nat with (S i) by lia. rewrite Hn. by eapply H.
  - by vm_compute.
  - by vm_compute.
Qed.

Lemma arm_compatibility_checks_witness :
  check_temperature_compatibility single_mold_arm = (Return true, single_mold_arm)
  ∧ check_duration_compatibility single_mold_arm = (Return true, single_mold_arm).
Proof.
  destruct arm_compatibility_checks as [H _].
  apply (H single_mold_arm). cbn. lia.
Defined.

(** ** RTXMachine: validation *)

Lemma scan_Some {A R} (f : A → result (option R)) (l : list A) (v : R) :
  scan f l = Return (Some v) → ∃ x, x ∈ l ∧ f x = Return (Some v).
Proof.
  induction l as [|x l IH]; cbn; [done|].
  destruct (f x) as [e|[w|]] eqn:E; [done| |].
  - intros [= ->]. exists x. split; [left|done].
  - intros (y & Hy & Hf)%IH. exists y. split; [by right|done].
Qed.

(** Looping over the indices of a list and reading each element is looping
    over the list. *)
Lemma scan_indices {A R} (g : A → result (option R)) (l : list A) :
  scan (λ i, match l !! i with Some x => g x | None => Raise IndexError end)
       (seq 0 (length l))
  = scan g l.
Proof.
  assert (∀ (f : nat → result (option R)) k n,
             scan f (seq (S k) n) = scan (λ i, f (S i)) (seq k n)) as Hshift.
  { intros f k n. revert k. induction n as [|n IH]; intros k; cbn; [done|].
    destruct (f (S k)) as [e|[v|]]; [done..|]. apply IH. }
  induction l as [|x l IH]; cbn [length seq scan]; [done|].
  cbn [lookup list_lookup]. destruct (g x) as [e|[v|]]; [done..|].
  rewrite Hshift. apply IH.
Qed.

Section ArmChecksReadOnly.
(** None of the four checks writes to the arm. *)
Lemma check_spatial_constraint_frame arm :
  check_spatial_constraint arm = (returned check_spatial_constraint arm, arm).
Proof. reflexivity. Qed.

Lemma check_balance_constraint_frame tolerance arm :
  check_balance_constraint tolerance arm =
    (returned (check_balance_constraint tolerance) arm, arm).
Proof. reflexivity. Qed.

Lemma check_temperature_compatibility_frame arm :
  check_temperature_compatibility arm =
    (returned check_temperature_compatibility arm, arm).
Proof. unfold returned. by rewrite check_temperature_compatibility_run. Qed.

Lemma check_duration_compatibility_frame arm :
  check_duration_compatibility arm =
    (returned check_duration_compatibility arm, arm).
Proof. unfold returned. by rewrite check_duration_compatibility_run. Qed.

Lemma on_arm_frame {A} i (method : M Arm A) (self : RTXMachine) arm r :
  arms_list self !! i = Some arm →
  method arm = (r, arm) →
  on_arm i method self = (r, self).
Proof.
  intros Hi Hm. unfold on_arm. rewrite Hi, Hm.
  rewrite list_insert_id by done. by destruct self.
Qed.
End ArmChecksReadOnly.

Lemma validate_arrangement_run (self : RTXMachine) :
  validate_arrangement self = (verdict_of_loop (scan arm_verdict (arms_list self)), self).
Proof.
  unfold validate_arrangement. run_method.
  erewrite for_each_scan
    with (f := λ i, match arms_list self !! i with
                    | Some arm => arm_verdict arm
                    | None => Raise IndexError
                    end).
  - rewrite scan_indices. by destruct (scan _ _) as [e|[v|]].
  - intros i [_ Hi]%elem_of_seq.
    destruct (lookup_lt_is_Some_2 (arms_list self) i) as [arm Harm]; [lia|].
    rewrite Harm. unfold arm_verdict. run_method.
    pose proof (on_arm_frame i get self arm (Return arm) Harm eq_refl) as Hget.
    unfold get in Hget.
    rewrite (on_arm_frame _ _ _ _ _ Harm (check_spatial_constraint_frame arm)).
    destruct (returned check_spatial_constraint arm) as [e|[]]; cbn [negb];
      [done| |by rewrite Hget].
    rewrite (on_arm_frame _ _ _ _ _ Harm (check_balance_constraint_frame _ arm)).
    destruct (returned (check_balance_constraint _) arm) as [e|[]]; cbn [negb];
      [done| |by rewrite Hget].
    rewrite (on_arm_frame _ _ _ _ _ Harm (check_temperature_compatibility_frame arm)).
    destruct (returned check_temperature_compatibility arm) as [e|[]]; cbn [negb];
      [done| |by rewrite Hget].
    rewrite (on_arm_frame _ _ _ _ _ Harm (check_duration_compatibility_frame arm)).
    destruct (returned check_duration_compatibility arm) as [e|[]]; cbn [negb];
      [done|done|by rewrite Hget].
Qed.

Ltac cases_checks :=
  repeat match goal with
    | |- context [match returned ?check ?arm with _ => _ end] =>
        destruct (returned check arm) as [?|[]]
    end.

Lemma arm_verdict_None arm : arm_verdict arm = Return None ↔ all_pass arm.
Proof.
  unfold arm_verdict, all_pass, passes. cases_checks;
    split; (done || by intros (?&?&?&?)).
Qed.

Lemma arm_verdict_Some arm v : arm_verdict arm = Return (Some v) → v.1 = false.
Proof. unfold arm_verdict. cases_checks; (done || by intros [= <-]). Qed.

(** C2.  [validate_arrangement] does not change the machine; it returns
    [(True, "All constraints satisfied")] exactly when every arm passes all
    four checks (and never [True] with another message); and when the arms
    before some arm all pass, the outcome is decided by that arm's first
    failing check, tried in the order spatial, balance, temperature,
    duration, with the message of that check and the arm's id. *)
Theorem validate_arrangement_first_failure (self : RTXMachine) :
  after validate_arrangement self = self
  ∧ (returned validate_arrangement self = Return (true, "All constraints satisfied")
     ↔ ∀ arm, arm ∈ arms_list self → all_pass arm)
  ∧ (∀ msg, returned validate_arrangement self = Return (true, msg) →
       msg = "All constraints satisfied")
  ∧ (∀ pre arm post,
       arms_list self = pre ++ arm :: post →
       (∀ a, a ∈ pre → all_pass a) →
       (returned check_spatial_constraint arm = Return false →
        returned validate_arrangement self =
          Return (false, "Spatial constraint violated on arm " +:+ arm_id arm))
       ∧ (passes check_spatial_constraint arm →
          returned (check_balance_constraint default_balance_tolerance) arm = Return false →
          returned validate_arrangement self =
            Return (false, "Balance constraint violated on arm " +:+ arm_id arm))
       ∧ (passes check_spatial_constraint arm →
          passes (check_balance_constraint default_balance_tolerance) arm →
          returned check_temperature_compatibility arm = Return false →
          returned validate_arrangement self =
            Return (false, "Temperature compatibility failed on arm " +:+ arm_id arm))
       ∧ (passes check_spatial_constraint arm →
          passes (check_balance_constraint default_balance_tolerance) arm →
          passes check_temperature_compatibility arm →
          returned check_duration_compatibility arm = Return false →
          returned validate_arrangement self =
            Return (false, "Duration compatibility failed on arm " +:+ arm_id arm))).
Proof.
  unfold after, returned at 1 2. rewrite validate_arrangement_run. cbn [fst snd].
  split; [done|]. split; [|split].
  - rewrite <- (Forall_forall all_pass), Forall_forall.
    setoid_rewrite <- arm_verdict_None. rewrite <- scan_None.
    destruct (scan arm_verdict (arms_list self)) as [e|[v|]] eqn:E; cbn.
    + split; done.
    + apply scan_Some in E as (arm & _ & Hv%arm_verdict_Some).
      destruct v as [b msg]; cbn in Hv; subst b. split; done.
    + split; done.
  - intros msg. destruct (scan arm_verdict (arms_list self)) as [e|[v|]] eqn:E; cbn.
    + done.
    + apply scan_Some in E as (arm & _ & Hv%arm_verdict_Some).
      destruct v as [b msg']; cbn in Hv; subst b. done.
    + by intros [= <-].
  - intros pre arm post Harms Hpre.
    assert (∀ v, arm_verdict arm = Return (Some v) →
                 returned validate_arrangement self = Return v) as Hfirst.
    { intros v Hv. unfold returned. rewrite validate_arrangement_run, Harms. cbn [fst].
      rewrite scan_first, Hv; [done| |congruence].
      intros a Ha. by apply arm_verdict_None, Hpre. }
    unfold passes. repeat split; intros; apply Hfirst; unfold arm_verdict;
      repeat match goal with H : returned _ arm = _ |- _ => rewrite H; clear H end; done.
Qed.

Lemma validate_arrangement_first_failure_witness :
  returned validate_arrangement
    (mkRTXMachine "rtx" 1 [empty_arm; overfull_arm; loaded_arm] 0 0 7)
  = Return (false, "Spatial constraint violated on arm arm-2").
Proof.
  destruct (validate_arrangement_first_failure
              (mkRTXMachine "rtx" 1 [empty_arm; overfull_arm; loaded_arm] 0 0 7))
    as (_ & _ & _ & H).
  destruct (H [empty_arm] overfull_arm [loaded_arm]) as [Hspatial _].
  - reflexivity.
  - intros a ->%list_elem_of_singleton. by vm_compute.
  - apply Hspatial. by vm_compute.
Defined.

(** ** RTXMachine: cycles and quota *)

(** C1.  [execute_cycle] first validates.  A failed validation is returned
    as it is and the machine is unchanged (likewise when validation raises),
    whatever the quota.  After a successful validation, an exhausted quota
    gives [(False, "Daily cycle limit reached")] and an unchanged machine;
    otherwise both counters grow by one, nothing else changes, and the
    message carries the new [current_cycle]. *)
Theorem execute_cycle_outcomes (self : RTXMachine) :
  (∀ msg, returned validate_arrangement self = Return (false, msg) →
     execute_cycle self = (Return (false, msg), self))
  ∧ (∀ e, returned validate_arrangement self = Raise e →
     execute_cycle self = (Raise e, self))
  ∧ (∀ msg, returned validate_arrangement self = Return (true, msg) →
     (daily_cycles_completed self >= max_daily_cycles self)%Z →
     execute_cycle self = (Return (false, "Daily cycle limit reached"), self))
  ∧ (∀ msg, returned validate_arrangement self = Return (true, msg) →
     (daily_cycles_completed self < max_daily_cycles self)%Z →
     execute_cycle self =
       (Return (true, "Cycle " +:+ pretty (current_cycle self + 1)%Z
                        +:+ " completed successfully"),
        mkRTXMachine (machine_id self) (machine_count self) (arms_list self)
                     (current_cycle self + 1) (daily_cycles_completed self + 1)
                     (max_daily_cycles self))).
Proof.
  unfold returned, execute_cycle. run_method.
  rewrite validate_arrangement_run. cbn [fst].
  repeat split.
  - by intros msg ->.
  - by intros e ->.
  - intros msg -> Hquota. cbn [negb].
    destruct (Z.geb_spec (daily_cycles_completed self) (max_daily_cycles self)); [done|lia].
  - intros msg -> Hquota. cbn [negb].
    destruct (Z.geb_spec (daily_cycles_completed self) (max_daily_cycles self)); [lia|done].
Qed.

Lemma execute_cycle_outcomes_witness :
  execute_cycle (idle_machine 7)
    = (Return (false, "Daily cycle limit reached"), idle_machine 7)
  ∧ execute_cycle (idle_machine 6)
    = (Return (true, "Cycle 42 completed successfully"),
       mkRTXMachine "rtx" 1 [empty_arm] 42 7 7).
Proof.
  split.
  - destruct (execute_cycle_outcomes (idle_machine 7)) as (_ & _ & H & _).
    apply (H "All constraints satisfied"); [by vm_compute | cbn; lia].
  - destruct (execute_cycle_outcomes (idle_machine 6)) as (_ & _ & _ & H).
    apply (H "All constraints satisfied"); [by vm_compute | cbn; lia].
Defined.

(** [change_arrangement] on its own terms: the quota becomes
    [max(0, max_daily_cycles - setup_time_loss)] and nothing else changes. *)
Lemma change_arrangement_run (setup_time_loss : Z) (self : RTXMachine) :
  change_arrangement setup_time_loss self =
    (Return ("Arrangement changed, " +:+ pretty setup_time_loss +:+ " cycles lost to setup"),
     mkRTXMachine (machine_id self) (machine_count self) (arms_list self)
                  (current_cycle self) (daily_cycles_completed self)
                  (Z.max 0 (max_daily_cycles self - setup_time_loss))).
Proof. reflexivity. Qed.

(** C6 as stated fails: a negative [setup_time_loss] raises the quota of a
    freshly constructed machine from 7 to 10. *)
Lemma change_arrangement_can_increase :
  ¬ ∀ (self : RTXMachine) (k : Z),
      (max_daily_cycles (after (change_arrangement k) self) <= max_daily_cycles self)%Z.
Proof.
  intros H. specialize (H (RTXMachine_init "rtx" 1) (-3)%Z).
  vm_compute in H. by apply H.
Qed.

(** C6, amended.  [change_arrangement(k)] sets the quota to
    [max(0, max_daily_cycles - k)] and changes nothing else; when [k >= 0]
    and the quota is not negative, the new quota is at most the old one. *)
Theorem change_arrangement_quota (self : RTXMachine) (k : Z) :
  after (change_arrangement k) self =
    mkRTXMachine (machine_id self) (machine_count self) (arms_list self)
                 (current_cycle self) (daily_cycles_completed self)
                 (Z.max 0 (max_daily_cycles self - k))
  ∧ ((0 <= k)%Z → (0 <= max_daily_cycles self)%Z →
     (max_daily_cycles (after (change_arrangement k) self) <= max_daily_cycles self)%Z).
Proof.
  unfold after. rewrite change_arrangement_run. cbn [snd max_daily_cycles].
  split; [done|lia].
Qed.

Lemma change_arrangement_quota_witness :
  (max_daily_cycles (after (change_arrangement 9) (RTXMachine_init "rtx" 1)) <= 7)%Z.
Proof.
  destruct (change_arrangement_quota (RTXMachine_init "rtx" 1) 9) as [_ H].
  apply H; cbn; lia.
Defined.

(** ** Order: progress ledger *)

Lemma tracked_insert (d : gmap string Z) k v : tracked (<[k := v]> d) k = v.
Proof. unfold tracked. by rewrite lookup_insert_eq. Qed.

Lemma tracked_insert_absent (d : gmap string Z) k :
  k ∉ dom d → tracked d k = 0%Z.
Proof. intros H. unfold tracked. by rewrite (not_elem_of_dom_1 _ _ H). Qed.

Lemma update_progress_run (mold_id : string) (quantity_produced : Z) (self : Order) :
  update_progress mold_id quantity_produced self =
    (Return tt,
     mkOrder (order_id self) (mold_requirements self) (deadline self)
             (<[mold_id := recorded_total self mold_id quantity_produced]>
                (completion_status self))
             (is_complete self)).
Proof.
  unfold update_progress, recorded_total. run_method.
  destruct self as [oid reqs dl status done_]. cbn [completion_status mold_requirements
    order_id deadline is_complete].
  case_bool_decide as Hin; run_method; unfold set_completion_status;
    cbn [completion_status mold_requirements order_id deadline is_complete];
    rewrite ?tracked_insert, ?insert_insert_eq;
    [|rewrite (tracked_insert_absent _ _ Hin)];
    (destruct (reqs !! mold_id) as [required|]; [|done]);
    (destruct (_ >=? required)%Z; run_method; [|done]);
    cbn [completion_status mold_requirements order_id deadline is_complete];
    by rewrite insert_insert_eq.
Qed.

Lemma recorded_total_le self mold_id quantity_produced required :
  mold_requirements self !! mold_id = Some required →
  (recorded_total self mold_id quantity_produced <= required)%Z.
Proof.
  intros Hreq. unfold recorded_total. rewrite Hreq.
  destruct (Z.geb_spec (tracked (completion_status self) mold_id + quantity_produced)
                       required); lia.
Qed.

Lemma update_progress_within self mold_id quantity_produced :
  within_requirements self →
  within_requirements (after (update_progress mold_id quantity_produced) self).
Proof.
  intros Hinv id total required. unfold after. rewrite update_progress_run.
  cbn [snd completion_status mold_requirements].
  destruct (decide (mold_id = id)) as [->|Hne].
  - rewrite lookup_insert_eq. intros [= <-] Hreq. by apply recorded_total_le.
  - rewrite lookup_insert_ne by done. apply Hinv.
Qed.

Lemma update_progress_all_run calls self :
  ∃ self', update_progress_all calls self = (Return tt, self')
           ∧ mold_requirements self' = mold_requirements self
           ∧ (within_requirements self → within_requirements self').
Proof.
  revert self. induction calls as [|[mold_id quantity] calls IH]; intros self.
  - by exists self.
  - cbn [update_progress_all]. run_method.
    pose proof (update_progress_within self mold_id quantity) as Hstep.
    unfold after in Hstep. rewrite update_progress_run in *. cbn [snd] in Hstep.
    destruct (IH (mkOrder (order_id self) (mold_requirements self) (deadline self)
                    (<[mold_id := recorded_total self mold_id quantity]>
                       (completion_status self)) (is_complete self)))
      as (self' & Hrun & Hreq & Hinv).
    exists self'. rewrite Hrun. split; [done|]. split; [done|]. auto.
Qed.

(** C3.  One [update_progress] records for its mold the old total (0 if
    the mold was not tracked) plus the quantity, cut down to the requirement
    when the mold has one, and changes no other entry or field.  After any
    sequence of calls on a new order, no tracked total exceeds the
    requirement of its mold.  With requirement {X: 5}, two calls of 3 leave
    5 for X and [check_completion] returns true. *)
Theorem update_progress_clamps :
  (∀ self mold_id quantity_produced,
     update_progress mold_id quantity_produced self =
       (Return tt,
        mkOrder (order_id self) (mold_requirements self) (deadline self)
                (<[mold_id := recorded_total self mold_id quantity_produced]>
                   (completion_status self))
                (is_complete self))
     ∧ (mold_id ∉ dom (completion_status self) →
        mold_requirements self !! mold_id = None →
        recorded_total self mold_id quantity_produced = quantity_produced)
     ∧ (∀ required, mold_requirements self !! mold_id = Some required →
        recorded_total self mold_id quantity_produced =
          Z.min (tracked (completion_status self) mold_id + quantity_produced) required))
  ∧ (∀ order_id requirements deadline calls,
       within_requirements
         (after (update_progress_all calls) (Order_init order_id requirements deadline)))
  ∧ (let order := after (update_progress_all [("X", 3%Z); ("X", 3%Z)])
                        (Order_init "order-1" {["X" := 5%Z]} "friday") in
     completion_status order !! "X" = Some 5%Z
     ∧ returned check_completion order = Return true).
Proof.
  split; [|split].
  - intros self mold_id quantity. split; [apply update_progress_run|]. split.
    + intros Hin Hreq. unfold recorded_total.
      rewrite Hreq, (tracked_insert_absent _ _ Hin). lia.
    + intros required Hreq. unfold recorded_total. rewrite Hreq.
      destruct (Z.geb_spec (tracked (completion_status self) mold_id + quantity) required);
        lia.
  - intros oid reqs dl calls.
    destruct (update_progress_all_run calls (Order_init oid reqs dl))
      as (self' & Hrun & _ & Hinv).
    unfold after. rewrite Hrun. apply Hinv.
    intros id total required Hstatus. cbn [Order_init completion_status] in Hstatus.
    by rewrite lookup_empty in Hstatus.
  - by vm_compute.
Qed.

Lemma update_progress_clamps_witness :
  recorded_total (Order_init "order-1" {["X" := 5%Z]} "friday") "X" 8 = 5%Z.
Proof.
  destruct update_progress_clamps as [H _].
  destruct (H (Order_init "order-1" {["X" := 5%Z]} "friday") "X" 8%Z) as (_ & _ & Hmin).
  rewrite (Hmin 5%Z); [reflexivity | by vm_compute].
Defined.

(** ** BalancingWeight: greedy weight count *)

Section GreedyCount.
Local Open Scope Q_scope.

#[local] Instance Qge_trans : Transitive (flip Qle).
Proof. intros x y z Hxy Hyz. unfold flip in *. by eapply Qle_trans. Qed.

#[local] Instance Qge_total : Total (flip Qle).
Proof.
  intros x y. unfold flip.
  destruct (Qlt_le_dec x y) as [H|H]; [right; by apply Qlt_le_weak | by left].
Qed.

Lemma sorted_reverse_elem_of (l : list Q) w : w ∈ sorted_reverse l ↔ w ∈ l.
Proof. unfold sorted_reverse. by rewrite merge_sort_Permutation. Qed.



(** *** The loops never count down *)



(** *** Positive options: the loops finish, greedily *)




(** *** A single option of 1 *)


End GreedyCount.


(** An option that is not positive keeps fitting once its turn comes, so
    the method does not return: no bound on the loops is large enough. *)
Lemma while_fits_nonpositive fuel w : ∀ r n,
  (w <= 0)%Q → (0 <= r)%Q → while_fits fuel w r n = None.
Proof.
  induction fuel as [|fuel IH]; intros r n Hw Hr; cbn; [done|].
  assert (w <= r)%Q as Hfit by lra.
  apply Qle_bool_iff in Hfit. rewrite Hfit. apply IH; lra.
Qed.

Lemma while_fits_remaining fuel w : ∀ r n r' n',
  (0 <= r)%Q → while_fits fuel w r n = Some (r', n') → (0 <= r')%Q.
Proof.
  induction fuel as [|fuel IH]; intros r n r' n' Hr; cbn; [done|].
  destruct (Qle_bool w r) eqn:Hfit.
  - apply Qle_bool_iff in Hfit. apply IH. lra.
  - by intros [= <- _].
Qed.

Lemma minimize_weight_count_nonpositive_option fuel self target_torque w :
  w ∈ weight_options self → (w <= 0)%Q →
  minimize_weight_count fuel self target_torque = None.
Proof.
  intros Hin Hw. unfold minimize_weight_count.
  apply (proj2 (sorted_reverse_elem_of _ _)) in Hin.
  assert (∀ ws r n, w ∈ ws → (0 <= r)%Q → for_weights fuel ws r n = None) as Hloop.
  { induction ws as [|w0 ws IH]; intros r n Hws Hr; [by apply elem_of_nil in Hws|].
    cbn. destruct (while_fits fuel w0 r n) as [[r1 n1]|] eqn:E; [|done].
    apply elem_of_cons in Hws as [<-|Hws].
    - by rewrite while_fits_nonpositive in E.
    - apply IH; [done|]. by eapply while_fits_remaining. }
  by rewrite Hloop by (done || apply Qabs_nonneg).
Qed.



(** * Further properties *)

(** ** Mold compatibility: sign and direction *)

Section CompatibilityScaled.
Local Open Scope Q_scope.

Lemma Qdiv_le_iff a b c : 0 < c → a / c <= b ↔ a <= b * c.
Proof.
  intros Hc. split; intros H.
  - assert (a == a / c * c) as -> by (field; lra).
    apply Qmult_le_compat_r; [done|lra].
  - by apply Qle_shift_div_r.
Qed.

Lemma Qdiv_nonpos a c : 0 <= a → c < 0 → a / c <= 0.
Proof.
  intros Ha Hc.
  assert (a / c == - (a / - c)) as -> by (field; lra).
  assert (0 <= a / - c); [|lra].
  apply Qle_shift_div_l; lra.
Qed.

(** X2.  A mold whose own heating temperature and heating time are negative
    accepts every mold, at any tolerances that are not negative: both
    relative differences come out at most zero. *)
Theorem check_compatibility_with_negative_baseline self other tt1 tt2 :
  heating_temperature self < 0 → heating_time self < 0 →
  0 <= tt1 → 0 <= tt2 →
  check_compatibility_with self other tt1 tt2 = Return true.
Proof.
  intros Ht Hd H1 H2.
  rewrite check_compatibility_with_value by lra. f_equal.
  apply andb_true_iff. rewrite !Qle_bool_iff. split.
  - eapply Qle_trans; [apply Qdiv_nonpos; [apply Qabs_nonneg|done]|done].
  - eapply Qle_trans; [apply Qdiv_nonpos; [apply Qabs_nonneg|done]|done].
Qed.

(** X3.  The check is directional, and the direction from the larger baseline is
    the lenient one: if [a] accepts [b], and [b]'s temperature and time are
    at least [a]'s, then [b] accepts [a]. *)
Theorem check_compatibility_with_larger_anchor a b tt1 tt2 :
  0 < heating_temperature a → 0 < heating_time a →
  heating_temperature a <= heating_temperature b →
  heating_time a <= heating_time b →
  0 <= tt1 → 0 <= tt2 →
  check_compatibility_with a b tt1 tt2 = Return true →
  check_compatibility_with b a tt1 tt2 = Return true.
Proof.
  intros Ht Hd Htb Hdb H1 H2.
  rewrite !check_compatibility_with_value by lra.
  intros [= H]. f_equal.
  apply andb_true_iff in H as [Hx Hy]. apply andb_true_iff.
  rewrite !Qle_bool_iff, !Qdiv_le_iff in * by lra.
  rewrite (Qabs_Qminus (heating_temperature b)), (Qabs_Qminus (heating_time b)).
  split; (eapply Qle_trans; [eassumption|]); nra.
Qed.

End CompatibilityScaled.

Lemma check_compatibility_with_negative_baseline_witness :
  check_compatibility_with (mold_at (-200) (-3)) (mold_at 900 50)
    default_tolerance default_tolerance = Return true.
Proof.
  apply check_compatibility_with_negative_baseline; by vm_compute.
Defined.

Lemma check_compatibility_with_larger_anchor_witness :
  check_compatibility_with (mold_at 203 (306 # 100)) (mold_at 200 3)
    default_tolerance default_tolerance = Return true.
Proof.
  apply check_compatibility_with_larger_anchor; by vm_compute.
Defined.

(** ** Arm: volumes as sums *)

Section ArmTotals.
Local Open Scope Q_scope.

Lemma fold_left_total {A} (g : A → Q) (l : list A) (a : Q) :
  fold_left (λ acc x, acc + g x) l a == a + total (g <$> l).
Proof.
  unfold total. revert a. induction l as [|x l IH]; intros a; cbn.
  - ring.
  - rewrite IH. ring.
Qed.

Lemma py_sum_total (l : list Q) : py_sum l == total l.
Proof.
  unfold py_sum.
  pose proof (fold_left_total id l 0) as H. rewrite list_fmap_id in H.
  rewrite H. ring.
Qed.

Lemma total_nonneg (l : list Q) : (∀ y, y ∈ l → 0 <= y) → 0 <= total l.
Proof.
  unfold total. induction l as [|z l IH]; intros Hpos; cbn; [lra|].
  assert (0 <= z) by (apply Hpos; left).
  assert (0 <= foldr Qplus 0 l); [|lra].
  apply IH. intros u Hu. apply Hpos. by right.
Qed.

Lemma total_elem_le (l : list Q) x :
  (∀ y, y ∈ l → 0 <= y) → x ∈ l → x <= total l.
Proof.
  induction l as [|y l IH]; intros Hpos Hx; [by apply elem_of_nil in Hx|].
  assert (0 <= total l) as Htot.
  { apply total_nonneg. intros u Hu. apply Hpos. by right. }
  assert (0 <= y) by (apply Hpos; left).
  change (total (y :: l)) with (y + total l).
  apply elem_of_cons in Hx as [->|Hx]; [lra|].
  assert (x <= total l); [|lra].
  apply IH; [|done]. intros u Hu. apply Hpos. by right.
Qed.

Lemma check_spatial_constraint_run (self : Arm) :
  check_spatial_constraint self =
    (Return (Qle_bool (py_sum (volume <$> current_molds self)
                       + py_sum (spider_volume <$> current_spiders self))
                      (max_volume self)), self).
Proof. reflexivity. Qed.

(** X4.  An arm that passes the spatial check, and whose molds and spiders
    have volumes that are not negative, holds no single item larger than
    the arm: every spider passes [check_spatial_fit] for the arm's volume,
    and every mold is within it. *)
Theorem check_spatial_constraint_each_fits (self : Arm) :
  (∀ mold, mold ∈ current_molds self → 0 <= volume mold) →
  (∀ spider, spider ∈ current_spiders self → 0 <= spider_volume spider) →
  returned check_spatial_constraint self = Return true →
  (∀ spider, spider ∈ current_spiders self →
     check_spatial_fit spider (max_volume self) = true)
  ∧ (∀ mold, mold ∈ current_molds self → volume mold <= max_volume self).
Proof.
  intros Hmolds Hspiders. unfold returned.
  rewrite check_spatial_constraint_run. cbn [fst]. intros [= H].
  apply Qle_bool_iff in H. rewrite !py_sum_total in H.
  assert (∀ y, y ∈ volume <$> current_molds self → 0 <= y) as Hm.
  { intros y (m & -> & Hin)%list_elem_of_fmap. auto. }
  assert (∀ y, y ∈ spider_volume <$> current_spiders self → 0 <= y) as Hs.
  { intros y (s & -> & Hin)%list_elem_of_fmap. auto. }
  pose proof (total_nonneg _ Hm) as Hm0. pose proof (total_nonneg _ Hs) as Hs0.
  split.
  - intros spider Hin. unfold check_spatial_fit. apply Qle_bool_iff.
    assert (spider_volume spider <= total (spider_volume <$> current_spiders self));
      [|lra].
    apply (total_elem_le _ _ Hs), list_elem_of_fmap. by exists spider.
  - intros mold Hin.
    assert (volume mold <= total (volume <$> current_molds self)); [|lra].
    apply (total_elem_le _ _ Hm), list_elem_of_fmap. by exists mold.
Qed.

End ArmTotals.

Lemma check_spatial_constraint_each_fits_witness :
  check_spatial_fit spider_8 (max_volume fitted_arm) = true.
Proof.
  destruct (check_spatial_constraint_each_fits fitted_arm) as [H _].
  - intros mold ->%list_elem_of_singleton. by vm_compute.
  - intros spider ->%list_elem_of_singleton. by vm_compute.
  - by vm_compute.
  - apply H. left.
Defined.

(** ** BalancingWeight: applying a weight *)

Lemma py_in_spec (v : Q) (l : list Q) :
  py_in v l = true ↔ ∃ o, o ∈ l ∧ (o == v)%Q.
Proof.
  unfold py_in. rewrite existsb_exists. split.
  - intros (o & Hin & Heq). exists o. split; [by apply list_elem_of_In|].
    by apply Qeq_bool_iff.
  - intros (o & Hin & Heq). exists o. split; [by apply list_elem_of_In|].
    by apply Qeq_bool_iff.
Qed.

Lemma apply_weight_run (v : Q) (self : BalancingWeight) :
  apply_weight v self =
    if py_in v (weight_options self)
    then (Return true, set_bw_weight v self)
    else (Return false, self).
Proof. unfold apply_weight. run_method. by destruct (py_in _ _). Qed.

(** X8.  [apply_weight] returns true exactly when the value equals one of the
    options, and then the applied weight is that value; otherwise it
    returns false and the object is as it was.  It never raises. *)
Theorem apply_weight_outcome (v : Q) (self : BalancingWeight) :
  (returned (apply_weight v) self = Return true
     ↔ ∃ o, o ∈ weight_options self ∧ (o == v)%Q)
  ∧ (returned (apply_weight v) self = Return true →
     after (apply_weight v) self = set_bw_weight v self)
  ∧ (returned (apply_weight v) self ≠ Return true →
     apply_weight v self = (Return false, self)).
Proof.
  unfold returned, after. rewrite apply_weight_run, <- py_in_spec.
  destruct (py_in v (weight_options self)); cbn [fst snd].
  - split; [done|]. split; [done|]. by intros [].
  - split; [done|]. split; [done|]. done.
Qed.

(** X9.  Whatever values are applied to a new balancing weight, in whatever
    order, its options and position stay as constructed and its weight is
    0 or equal to one of the options. *)
Theorem apply_weights_invariant (options : list Q) (pos : string) (values : list Q) :
  let self := after (apply_weights values) (BalancingWeight_init options pos) in
  weight_options self = options
  ∧ position self = pos
  ∧ (bw_weight self = 0%Q ∨ ∃ o, o ∈ options ∧ (o == bw_weight self)%Q).
Proof.
  assert (∀ self : BalancingWeight,
            (bw_weight self = 0%Q
             ∨ ∃ o, o ∈ weight_options self ∧ (o == bw_weight self)%Q) →
            let self' := after (apply_weights values) self in
            weight_options self' = weight_options self
            ∧ position self' = position self
            ∧ (bw_weight self' = 0%Q
               ∨ ∃ o, o ∈ weight_options self ∧ (o == bw_weight self')%Q)) as Hinv.
  { induction values as [|v values IH]; intros self Hself; [done|].
    unfold after. cbn [apply_weights]. run_method. rewrite apply_weight_run.
    destruct (py_in v (weight_options self)) eqn:Hin.
    - apply py_in_spec in Hin.
      destruct (IH (set_bw_weight v self)) as (H1 & H2 & H3); [by right|].
      unfold after in H1, H2, H3. by cbn in *.
    - apply (IH self Hself). }
  apply (Hinv (BalancingWeight_init options pos)). by left.
Qed.

(** ** BalancingWeight: one weight per position *)

Section OptimalWeights.
Local Open Scope Q_scope.





End OptimalWeights.


Lemma apply_weight_outcome_witness :
  returned (apply_weight (4 # 2)) workshop_weights = Return true.
Proof.
  apply (proj1 (apply_weight_outcome (4 # 2) workshop_weights)).
  exists 2%Q. split; [|done]. unfold workshop_weights. cbn [weight_options].
  right. right. left.
Defined.

(** ** BalancingWeight: the greedy count is not the minimum *)

Lemma while_fits_more_fuel fuel fuel' w : ∀ r n x,
  while_fits fuel w r n = Some x → (fuel ≤ fuel')%nat → while_fits fuel' w r n = Some x.
Proof.
  revert fuel'. induction fuel as [|fuel IH]; intros fuel' r n x; cbn; [done|].
  intros H Hle. destruct fuel' as [|fuel']; [lia|]. cbn.
  destruct (Qle_bool w r); [|done]. apply IH; [done|lia].
Qed.

Lemma for_weights_more_fuel fuel fuel' ws : ∀ r n x,
  for_weights fuel ws r n = Some x → (fuel ≤ fuel')%nat → for_weights fuel' ws r n = Some x.
Proof.
  induction ws as [|w ws IH]; intros r n x; cbn; [done|].
  destruct (while_fits fuel w r n) as [[r1 n1]|] eqn:E; [|done].
  intros H Hle. rewrite (while_fits_more_fuel _ _ _ _ _ _ E Hle). by apply IH.
Qed.

Lemma minimize_weight_count_more_fuel fuel fuel' self target_torque n :
  minimize_weight_count fuel self target_torque = Some n →
  (fuel ≤ fuel')%nat →
  minimize_weight_count fuel' self target_torque = Some n.
Proof.
  unfold minimize_weight_count.
  destruct (for_weights fuel _ _ _) as [x|] eqn:E; [|done].
  intros [= <-] Hle. by rewrite (for_weights_more_fuel _ _ _ _ _ _ E Hle).
Qed.

(** X11.  The docstring promises the minimum number of weights; the greedy loop
    does not deliver it.  With the options 1, 3 and 4 and a target of 6 the
    method counts three weights (4, 1, 1) where two (3 and 3) reach the
    target. *)
Theorem minimize_weight_count_not_minimal :
  ∃ (fewer : list Q) (n : Z),
    (∀ w, w ∈ fewer → w ∈ weight_options coin_weights)
    ∧ (total fewer == Qabs 6)%Q
    ∧ (∀ fuel, (3 ≤ fuel)%nat → minimize_weight_count fuel coin_weights 6 = Some n)
    ∧ (Z.of_nat (length fewer) < n)%Z.
Proof.
  exists [3%Q; 3%Q], 3%Z. split; [|split; [|split]].
  - intros w Hw. assert (w = 3%Q) as ->.
    { repeat (apply elem_of_cons in Hw as [->|Hw]); try done.
      by apply elem_of_nil in Hw. }
    unfold coin_weights. cbn [weight_options]. right. left.
  - by vm_compute.
  - intros fuel Hfuel.
    by apply (minimize_weight_count_more_fuel 3 fuel coin_weights 6 3%Z).
  - cbn. lia.
Qed.

(** ** Order: completion *)

Lemma check_completion_run (self : Order) :
  check_completion self =
    let met := forallb (λ '(mold_id, required_qty),
                          negb (tracked (completion_status self) mold_id <? required_qty)%Z)
                       (map_to_list (mold_requirements self)) in
    (Return met, set_is_complete met self).
Proof.
  unfold check_completion. run_method.
  assert (∀ l : list (string * Z),
            for_each l
              (λ '(mold_id, required_qty) (self0 : Order),
                 (if (default 0%Z (completion_status self0 !! mold_id) <? required_qty)%Z
                  then λ self1 : Order, (Return (Some false), set_is_complete false self1)
                  else λ self1 : Order, (Return None, self1)) self0) self
            = if forallb (λ '(mold_id, required_qty),
                            negb (tracked (completion_status self) mold_id <? required_qty)%Z) l
              then (Return None, self)
              else (Return (Some false), set_is_complete false self)) as Hloop.
  { induction l as [|[mold_id required] l IH]; [done|].
    cbn [for_each forallb]. run_method. unfold tracked at 1.
    destruct (_ <? required)%Z; [done|]. cbn [negb andb]. apply IH. }
  rewrite Hloop. by destruct (forallb _ _).
Qed.

Lemma check_completion_met (self : Order) :
  returned check_completion self = Return true ↔ requirements_met self.
Proof.
  unfold returned. rewrite check_completion_run. cbn [fst].
  unfold requirements_met. split.
  - intros [= H] mold_id required Hreq.
    rewrite forallb_forall in H. apply elem_of_map_to_list, list_elem_of_In in Hreq.
    specialize (H _ Hreq). cbn in H. apply negb_true_iff, Z.ltb_ge in H. done.
  - intros H. f_equal. apply forallb_forall. intros [mold_id required] Hin.
    apply list_elem_of_In, elem_of_map_to_list in Hin.
    apply negb_true_iff, Z.ltb_ge. by apply H.
Qed.

(** X12.  [check_completion] returns true exactly when every required mold has a
    tracked total of at least its requirement (an untracked mold counts as
    0); it stores what it returns in [is_complete] and changes nothing
    else. *)
Theorem check_completion_outcome (self : Order) :
  ∃ met : bool,
    check_completion self = (Return met, set_is_complete met self)
    ∧ (met = true ↔ requirements_met self).
Proof.
  pose proof (check_completion_met self) as Hmet.
  unfold returned in Hmet. rewrite check_completion_run in Hmet |- *.
  cbv zeta in Hmet |- *. cbn [fst] in Hmet.
  eexists. split; [reflexivity|]. rewrite <- Hmet. split; [by intros ->|by intros [= ->]].
Qed.

(** X13.  A completed order stays complete under further production: after
    [update_progress] with a quantity that is not negative,
    [check_completion] still returns true. *)
Theorem update_progress_keeps_completion (self : Order) mold_id quantity_produced :
  returned check_completion self = Return true →
  (0 <= quantity_produced)%Z →
  returned check_completion (after (update_progress mold_id quantity_produced) self)
  = Return true.
Proof.
  rewrite !check_completion_met. intros Hmet Hq id required.
  unfold after. rewrite update_progress_run.
  cbn [snd mold_requirements completion_status]. intros Hreq.
  destruct (decide (mold_id = id)) as [->|Hne].
  - rewrite tracked_insert. unfold recorded_total. rewrite Hreq.
    specialize (Hmet _ _ Hreq).
    destruct (Z.geb_spec (tracked (completion_status self) id + quantity_produced) required);
      lia.
  - unfold tracked. rewrite lookup_insert_ne by done. by apply Hmet.
Qed.

Lemma update_progress_keeps_completion_witness :
  returned check_completion
    (after (update_progress "X" 4)
       (after (update_progress "X" 5) (Order_init "order-1" {["X" := 5%Z]} "friday")))
  = Return true.
Proof.
  apply update_progress_keeps_completion; [by vm_compute | lia].
Defined.

(** ** RTXMachine: runs of cycles and re-arrangements *)

Lemma execute_cycle_run (self : RTXMachine) :
  execute_cycle self =
    match verdict_of_loop (scan arm_verdict (arms_list self)) with
    | Raise e => (Raise e, self)
    | Return (false, message) => (Return (false, message), self)
    | Return (true, _) =>
        if (daily_cycles_completed self >=? max_daily_cycles self)%Z
        then (Return (false, "Daily cycle limit reached"), self)
        else (Return (true, "Cycle " +:+ pretty (current_cycle self + 1)%Z
                              +:+ " completed successfully"),
              mkRTXMachine (machine_id self) (machine_count self) (arms_list self)
                           (current_cycle self + 1) (daily_cycles_completed self + 1)
                           (max_daily_cycles self))
    end.
Proof.
  unfold execute_cycle. run_method. rewrite validate_arrangement_run.
  destruct (verdict_of_loop _) as [e|[[] msg]]; [done| |done].
  cbn [negb]. by destruct (_ >=? _)%Z.
Qed.

Lemma validate_arrangement_passes (self : RTXMachine) msg :
  returned validate_arrangement self = Return (true, msg) →
  ∃ msg', verdict_of_loop (scan arm_verdict (arms_list self)) = Return (true, msg').
Proof.
  unfold returned. rewrite validate_arrangement_run. cbn [fst]. eauto.
Qed.

(** X14.  Repeated cycles on a valid arrangement run until the daily quota is
    used up and then stop counting: after [k] calls both counters have
    grown by [min(k, max(0, max_daily_cycles - daily_cycles_completed))],
    and nothing else has changed. *)
Theorem execute_cycles_until_quota (k : nat) (self : RTXMachine) msg :
  returned validate_arrangement self = Return (true, msg) →
  let ran := Z.min (Z.of_nat k)
               (Z.max 0 (max_daily_cycles self - daily_cycles_completed self)) in
  execute_cycles k self =
    (Return tt,
     mkRTXMachine (machine_id self) (machine_count self) (arms_list self)
                  (current_cycle self + ran) (daily_cycles_completed self + ran)
                  (max_daily_cycles self)).
Proof.
  intros [msg' Hvalid]%validate_arrangement_passes. clear msg. cbv zeta.
  revert self Hvalid. induction k as [|k IH]; intros self Hvalid.
  - cbn [execute_cycles]. run_method.
    replace (Z.min _ _) with 0%Z by lia. rewrite !Z.add_0_r. by destruct self.
  - cbn [execute_cycles]. run_method. rewrite execute_cycle_run, Hvalid.
    destruct (Z.geb_spec (daily_cycles_completed self) (max_daily_cycles self)) as [Hfull|Hroom].
    + rewrite (IH self Hvalid). f_equal. f_equal; lia.
    + rewrite IH by done.
      cbn [machine_id machine_count arms_list current_cycle daily_cycles_completed
           max_daily_cycles].
      f_equal. f_equal; lia.
Qed.

Lemma execute_cycles_until_quota_witness :
  execute_cycles 10 (idle_machine 4)
  = (Return tt, mkRTXMachine "rtx" 1 [empty_arm] 44 7 7).
Proof.
  apply (execute_cycles_until_quota 10 (idle_machine 4) "All constraints satisfied").
  by vm_compute.
Defined.

(** X15.  The quota after [change_arrangement] is never negative, and two
    re-arrangements, the second with a loss that is not negative, leave
    the machine as one re-arrangement with the summed loss. *)
Theorem change_arrangement_twice (a b : Z) (self : RTXMachine) :
  (0 <= max_daily_cycles (after (change_arrangement a) self))%Z
  ∧ ((0 <= b)%Z →
     after (change_arrangement a;; change_arrangement b) self
     = after (change_arrangement (a + b)) self).
Proof.
  unfold after. run_method. rewrite !change_arrangement_run.
  cbn [snd max_daily_cycles machine_id machine_count arms_list current_cycle
       daily_cycles_completed].
  split; [lia|]. intros Hb. f_equal. lia.
Qed.

Lemma change_arrangement_twice_witness :
  after (change_arrangement 5;; change_arrangement 4) (RTXMachine_init "rtx" 1)
  = after (change_arrangement 9) (RTXMachine_init "rtx" 1).
Proof.
  apply (proj2 (change_arrangement_twice 5 4 (RTXMachine_init "rtx" 1))). lia.
Defined.

(** X16.  A re-arrangement that costs at least the cycles still available today
    closes the day: on a valid arrangement the next [execute_cycle] answers
    "Daily cycle limit reached" and runs nothing. *)
Theorem change_arrangement_exhausts_quota (k : Z) (self : RTXMachine) msg :
  returned validate_arrangement self = Return (true, msg) →
  (0 <= daily_cycles_completed self)%Z →
  (max_daily_cycles self - daily_cycles_completed self <= k)%Z →
  execute_cycle (after (change_arrangement k) self)
  = (Return (false, "Daily cycle limit reached"), after (change_arrangement k) self).
Proof.
  intros [msg' Hvalid]%validate_arrangement_passes Hdone Hk.
  unfold after. rewrite change_arrangement_run. cbn [snd].
  rewrite execute_cycle_run. cbn [arms_list daily_cycles_completed max_daily_cycles].
  rewrite Hvalid.
  destruct (Z.geb_spec (daily_cycles_completed self)
              (Z.max 0 (max_daily_cycles self - k))); [done|lia].
Qed.

Lemma change_arrangement_exhausts_quota_witness :
  execute_cycle (after (change_arrangement 3) (idle_machine 4))
  = (Return (false, "Daily cycle limit reached"),
     after (change_arrangement 3) (idle_machine 4)).
Proof.
  apply (change_arrangement_exhausts_quota 3 (idle_machine 4) "All constraints satisfied").
  - by vm_compute.
  - cbn. lia.
  - cbn. lia.
Defined.

(** ** RTXMachine: what validation can raise *)

Lemma scan_Raise {A R} (f : A → result (option R)) (l : list A) e :
  scan f l = Raise e → ∃ x, x ∈ l ∧ f x = Raise e.
Proof.
  induction l as [|x l IH]; cbn; [done|].
  destruct (f x) as [e'|[v|]] eqn:E; [|done|].
  - intros [= ->]. exists x. split; [left|done].
  - intros (y & Hy & Hf)%IH. exists y. split; [by right|done].
Qed.

Lemma scan_Return {A R} (f : A → result (option R)) (l : list A) :
  (∀ x, x ∈ l → ∃ v, f x = Return v) → ∃ v, scan f l = Return v.
Proof.
  induction l as [|x l IH]; intros Hf; cbn; [eauto|].
  destruct (Hf x) as [[v|] ->]; [left|eauto|].
  apply IH. intros y Hy. apply Hf. by right.
Qed.

Lemma conclude_scan_Raise {A} (g : A → result bool) (l : list A) e :
  conclude (scan (λ x, verdict (g x)) l) = Raise e → ∃ x, x ∈ l ∧ g x = Raise e.
Proof.
  destruct (scan _ l) as [e'|[b|]] eqn:E; cbn; [|done..].
  intros [= ->]. apply scan_Raise in E as (x & Hx & Hg). exists x. split; [done|].
  by destruct (g x) as [?|[]]; cbn in Hg; simplify_eq.
Qed.

Lemma conclude_scan_Return {A} (g : A → result bool) (l : list A) :
  (∀ x, x ∈ l → ∃ b, g x = Return b) →
  ∃ b, conclude (scan (λ x, verdict (g x)) l) = Return b.
Proof.
  intros Hg. destruct (scan_Return (λ x, verdict (g x)) l) as [v ->].
  - intros x Hx. destruct (Hg x Hx) as [b ->]. cbn. eauto.
  - destruct v; cbn; eauto.
Qed.

Lemma compatible_faults (a b : Mold) :
  (∀ e, compatible a b = Raise e →
        e = ZeroDivisionError
        ∧ ((heating_temperature a == 0)%Q ∨ (heating_time a == 0)%Q))
  ∧ (¬ (heating_temperature a == 0)%Q → ¬ (heating_time a == 0)%Q →
     ∃ v, compatible a b = Return v)
  ∧ ((heating_temperature a == 0)%Q ∨ (heating_time a == 0)%Q →
     compatible a b = Raise ZeroDivisionError).
Proof.
  unfold compatible. split; [|split].
  - intros e. apply check_compatibility_with_raises.
  - intros Ht Hd. rewrite check_compatibility_with_value by done. eauto.
  - intros [Ht|Hd]; unfold check_compatibility_with.
    + by rewrite (py_truediv_zero _ _ Ht).
    + rewrite (py_truediv_zero _ _ Hd). unfold py_truediv.
      by destruct (Qeq_bool (heating_temperature a) 0).
Qed.

Lemma adjacent_pair_in_range (molds : list Mold) i :
  i ∈ seq 0 (length molds - 1) →
  ∃ this next, molds !! i = Some this ∧ molds !! S i = Some next
               ∧ adjacent_pair molds i = compatible this next.
Proof.
  intros [_ Hi]%elem_of_seq.
  destruct (lookup_lt_is_Some_2 molds i) as [this Ht]; [lia|].
  destruct (lookup_lt_is_Some_2 molds (S i)) as [next Hn]; [lia|].
  exists this, next. unfold adjacent_pair.
  rewrite Ht. replace (i + 1)%nat with (S i) by lia. by rewrite Hn.
Qed.

Lemma check_temperature_compatibility_faults (arm : Arm) :
  (∀ e, returned check_temperature_compatibility arm = Raise e → e = ZeroDivisionError)
  ∧ (nonzero_divisors arm → ∃ b, returned check_temperature_compatibility arm = Return b).
Proof.
  unfold returned. rewrite check_temperature_compatibility_run. cbn [fst].
  unfold nonzero_divisors.
  destruct (current_molds arm) as [|anchor [|next rest]];
    [split; [done|eauto]..|]. split.
  - intros e (x & _ & Hx)%conclude_scan_Raise.
    by apply (proj1 (compatible_faults anchor x)) in Hx as [-> _].
  - intros Hnz. apply conclude_scan_Return. intros x _.
    destruct (Hnz 0%nat anchor eq_refl) as [H1 H2]; [cbn; lia|].
    by apply compatible_faults.
Qed.

Lemma check_duration_compatibility_faults (arm : Arm) :
  (∀ e, returned check_duration_compatibility arm = Raise e → e = ZeroDivisionError)
  ∧ (nonzero_divisors arm → ∃ b, returned check_duration_compatibility arm = Return b).
Proof.
  unfold returned. rewrite check_duration_compatibility_run. cbn [fst].
  unfold nonzero_divisors.
  destruct (length (current_molds arm) <=? 1)%nat; [split; [done|eauto]|]. split.
  - intros e (i & Hi & Hx)%conclude_scan_Raise.
    apply adjacent_pair_in_range in Hi as (this & next & _ & _ & Heq).
    rewrite Heq in Hx. by apply (proj1 (compatible_faults this next)) in Hx as [-> _].
  - intros Hnz. apply conclude_scan_Return. intros i Hi.
    pose proof Hi as [_ Hlt]%elem_of_seq.
    apply adjacent_pair_in_range in Hi as (this & next & Hthis & _ & ->).
    destruct (Hnz i this Hthis) as [H1 H2]; [lia|].
    by apply compatible_faults.
Qed.

Lemma arm_verdict_faults (arm : Arm) :
  (∀ e, arm_verdict arm = Raise e → e = ZeroDivisionError)
  ∧ (nonzero_divisors arm → ∃ v, arm_verdict arm = Return v).
Proof.
  unfold arm_verdict.
  assert (∃ b, returned check_spatial_constraint arm = Return b) as [bs ->]
    by (by eexists).
  assert (∃ b, returned (check_balance_constraint default_balance_tolerance) arm
               = Return b) as [bb ->] by (by eexists).
  destruct (check_temperature_compatibility_faults arm) as [Ht1 Ht2].
  destruct (check_duration_compatibility_faults arm) as [Hd1 Hd2].
  split.
  - intros e. destruct bs, bb; try done.
    destruct (returned check_temperature_compatibility arm) as [e'|[]];
      [intros [= <-]; by apply Ht1| |done].
    destruct (returned check_duration_compatibility arm) as [e'|[]];
      [intros [= <-]; by apply Hd1|done..].
  - intros Hnz. destruct (Ht2 Hnz) as [bt ->], (Hd2 Hnz) as [bd ->].
    destruct bs, bb, bt, bd; eauto.
Qed.

(** X17.  [validate_arrangement] raises nothing but ZeroDivisionError (no index
    is ever out of range), and it raises nothing at all when, on every arm,
    every mold but the last has a heating temperature and a heating time
    other than 0. *)
Theorem validate_arrangement_faults (self : RTXMachine) :
  (∀ e, returned validate_arrangement self = Raise e → e = ZeroDivisionError)
  ∧ ((∀ arm, arm ∈ arms_list self → nonzero_divisors arm) →
     ∃ v, returned validate_arrangement self = Return v).
Proof.
  unfold returned. rewrite validate_arrangement_run. cbn [fst]. split.
  - intros e. destruct (scan arm_verdict (arms_list self)) as [e'|[v|]] eqn:E; [|done..].
    intros [= <-]. apply scan_Raise in E as (arm & _ & Harm).
    by apply (proj1 (arm_verdict_faults arm)).
  - intros Hnz. destruct (scan_Return arm_verdict (arms_list self)) as [v ->].
    + intros arm Harm. by apply arm_verdict_faults, Hnz.
    + destruct v; cbn; eauto.
Qed.

Lemma validate_arrangement_faults_witness :
  ∃ v, returned validate_arrangement
         (mkRTXMachine "rtx" 1 [paired_arm] 0 0 7) = Return v.
Proof.
  apply (proj2 (validate_arrangement_faults (mkRTXMachine "rtx" 1 [paired_arm] 0 0 7))).
  intros arm ->%list_elem_of_singleton i mold Hi Hlen.
  destruct i as [|[|i]]; cbn in Hi, Hlen; [|lia..].
  injection Hi as <-. split; by vm_compute.
Defined.

(** X18.  A mold with heating temperature or heating time 0 in front of another
    mold stops validation with ZeroDivisionError as soon as its arm is
    reached and has passed the spatial and balance checks; [execute_cycle]
    then raises too and leaves the machine as it was. *)
Theorem validate_arrangement_zero_baseline
    (self : RTXMachine) pre arm post anchor next rest :
  arms_list self = pre ++ arm :: post →
  (∀ a, a ∈ pre → all_pass a) →
  passes check_spatial_constraint arm →
  passes (check_balance_constraint default_balance_tolerance) arm →
  current_molds arm = anchor :: next :: rest →
  (heating_temperature anchor == 0)%Q ∨ (heating_time anchor == 0)%Q →
  returned validate_arrangement self = Raise ZeroDivisionError
  ∧ execute_cycle self = (Raise ZeroDivisionError, self).
Proof.
  intros Harms Hpre Hspatial Hbalance Hmolds Hzero.
  assert (arm_verdict arm = Raise ZeroDivisionError) as Harm.
  { unfold arm_verdict. unfold passes in Hspatial, Hbalance.
    rewrite Hspatial, Hbalance. unfold returned.
    rewrite check_temperature_compatibility_run, Hmolds. cbn [fst scan].
    by rewrite (proj2 (proj2 (compatible_faults anchor next)) Hzero). }
  assert (scan arm_verdict (arms_list self) = Raise ZeroDivisionError) as Hscan.
  { rewrite Harms, scan_first, Harm; [done| |congruence].
    intros a Ha. by apply arm_verdict_None, Hpre. }
  split.
  - unfold returned. by rewrite validate_arrangement_run, Hscan.
  - by rewrite execute_cycle_run, Hscan.
Qed.

Lemma validate_arrangement_zero_baseline_witness :
  execute_cycle (mkRTXMachine "rtx" 1 [empty_arm; cold_anchor_arm] 0 0 7)
  = (Raise ZeroDivisionError, mkRTXMachine "rtx" 1 [empty_arm; cold_anchor_arm] 0 0 7).
Proof.
  refine (proj2 (validate_arrangement_zero_baseline
                   (mkRTXMachine "rtx" 1 [empty_arm; cold_anchor_arm] 0 0 7)
                   [empty_arm] cold_anchor_arm [] (mold_at 0 3) (mold_at 200 3) []
                   eq_refl _ _ _ eq_refl _)).
  - intros a ->%list_elem_of_singleton. by vm_compute.
  - by vm_compute.
  - by vm_compute.
  - left. by vm_compute.
Defined.

Lemma validate_arrangement_all_pass (self : RTXMachine) :
  returned validate_arrangement self = Return (true, "All constraints satisfied")
  ↔ ∀ arm, arm ∈ arms_list self → all_pass arm.
Proof.
  unfold returned. rewrite validate_arrangement_run. cbn [fst].
  setoid_rewrite <- arm_verdict_None. rewrite <- scan_None.
  destruct (scan arm_verdict (arms_list self)) as [e|[v|]] eqn:E; cbn.
  - split; done.
  - apply scan_Some in E as (arm & _ & Hv%arm_verdict_Some).
    destruct v as [b msg]; cbn in Hv; subst b. split; done.
  - split; done.
Qed.

(** X19.  Whether an arrangement is valid does not depend on the order of the
    arms in [arms_list]. *)
Theorem validate_arrangement_order_independent (self : RTXMachine) (arms : list Arm) :
  arms ≡ₚ arms_list self →
  returned validate_arrangement (set_arms_list arms self)
    = Return (true, "All constraints satisfied")
  ↔ returned validate_arrangement self = Return (true, "All constraints satisfied").
Proof.
  intros Hperm. rewrite !validate_arrangement_all_pass.
  cbn [set_arms_list arms_list]. by setoid_rewrite Hperm.
Qed.

Lemma validate_arrangement_order_independent_witness :
  returned validate_arrangement
    (set_arms_list [empty_arm; single_mold_arm]
       (mkRTXMachine "rtx" 1 [single_mold_arm; empty_arm] 0 0 7))
    = Return (true, "All constraints satisfied")
  ↔ returned validate_arrangement (mkRTXMachine "rtx" 1 [single_mold_arm; empty_arm] 0 0 7)
    = Return (true, "All constraints satisfied").
Proof.
  apply validate_arrangement_order_independent. apply Permutation_swap.
Defined.

(** ** MoldDatabase *)

Section MoldCatalog.

Lemma dict_get_alter {V} (f : V → V) (k k' : string) (d : list (string * V)) :
  dict_get (dict_alter f k d) k'
  = if decide (k = k') then f <$> dict_get d k' else dict_get d k'.
Proof.
  induction d as [|[k0 v] d IH]; cbn; [by case_decide|].
  destruct (String.eqb_spec k0 k) as [->|Hk0]; cbn.
  - case_decide as Hk; [subst; by rewrite String.eqb_refl|].
    apply String.eqb_neq in Hk. by rewrite Hk.
  - rewrite IH. case_decide as Hk; [subst|done].
    apply String.eqb_neq in Hk0. by rewrite Hk0.
Qed.

Lemma dict_alter_keys {V} (f : V → V) (k : string) (d : list (string * V)) :
  (dict_alter f k d).*1 = d.*1.
Proof.
  induction d as [|[k0 v] d IH]; cbn; [done|].
  destruct (String.eqb k0 k); cbn; [done|]. by rewrite IH.
Qed.

Lemma update_availability_run (mold_id : string) (quantity_used : Z) (self : MoldDatabase) :
  update_availability mold_id quantity_used self =
    (Return tt,
     set_molds
       (dict_alter (λ mold, set_available_quantity
                              (available_quantity mold - quantity_used)%Z mold)
                   mold_id (molds self))
       self).
Proof.
  unfold update_availability, dict_in. run_method.
  destruct (dict_get (molds self) mold_id) eqn:E; [done|].
  f_equal. destruct self as [file d]. unfold set_molds. cbn in *. f_equal.
  clear file. induction d as [|[k0 v] d IH]; cbn in *; [done|].
  destruct (String.eqb k0 mold_id); [done|]. by rewrite <- IH.
Qed.

(** X20.  [update_availability] on an id that is not in the database changes
    nothing.  On an id that is, looking the id up afterwards gives the same
    mold with [available_quantity] lowered by the quantity used; every other
    id looks up as before; and the database keeps its keys in their order.
    Nothing stops the quantity from going below zero. *)
Theorem update_availability_lookup (mold_id : string) (quantity_used : Z)
    (self : MoldDatabase) :
  (returned (get_mold mold_id) self = Return None →
   update_availability mold_id quantity_used self = (Return tt, self))
  ∧ (∀ mold, returned (get_mold mold_id) self = Return (Some mold) →
       returned (get_mold mold_id) (after (update_availability mold_id quantity_used) self)
       = Return (Some (set_available_quantity
                         (available_quantity mold - quantity_used)%Z mold)))
  ∧ (∀ other, other ≠ mold_id →
       returned (get_mold other) (after (update_availability mold_id quantity_used) self)
       = returned (get_mold other) self)
  ∧ (molds (after (update_availability mold_id quantity_used) self)).*1 = (molds self).*1.
Proof.
  unfold returned, after, get_mold. run_method. cbn [fst].
  split; [|split; [|split]].
  - intros [= Hnone]. unfold update_availability, dict_in. run_method. by rewrite Hnone.
  - intros mold [= Hsome]. rewrite update_availability_run. cbn [snd set_molds molds].
    rewrite dict_get_alter, decide_True by done. by rewrite Hsome.
  - intros other Hne. rewrite update_availability_run. cbn [snd set_molds molds].
    by rewrite dict_get_alter, decide_False by done.
  - rewrite update_availability_run. cbn [snd set_molds molds]. apply dict_alter_keys.
Qed.

(** X21.  [check_availability] is the test that [update_availability] does not
    make: for a mold of the database, the quantity left after using
    [quantity_used] is not negative exactly when the mold's
    [check_availability(quantity_used)] holds. *)
Theorem check_availability_guards_update (mold_id : string) (quantity_used : Z)
    (self : MoldDatabase) (mold : Mold) :
  returned (get_mold mold_id) self = Return (Some mold) →
  ∃ mold',
    returned (get_mold mold_id) (after (update_availability mold_id quantity_used) self)
    = Return (Some mold')
    ∧ (check_availability mold quantity_used = true ↔ (0 <= available_quantity mold')%Z).
Proof.
  unfold returned, after, get_mold. run_method. cbn [fst]. intros [= Hsome].
  rewrite update_availability_run. cbn [snd set_molds molds].
  rewrite dict_get_alter, decide_True by done. rewrite Hsome. cbn [fmap option_fmap option_map].
  eexists. split; [reflexivity|]. unfold check_availability.
  cbn [set_available_quantity available_quantity]. rewrite Z.leb_le. lia.
Qed.

Lemma get_compatible_molds_loop (reference_mold : Mold) (tolerance : Q)
    (self : MoldDatabase) (values : list Mold) :
  ¬ (heating_temperature reference_mold == 0)%Q →
  ¬ (heating_time reference_mold == 0)%Q →
  ∀ compatible : list Mold,
    for_acc values
      (λ (compatible : list Mold) (mold : Mold),
         if negb (String.eqb (mold_id mold) (mold_id reference_mold)) then
           ok ← liftR (check_compatibility_with reference_mold mold tolerance tolerance);
           if (ok : bool) then mret (compatible ++ [mold]) else mret compatible
         else mret compatible)
      compatible self
    = (Return (compatible ++ List.filter (is_candidate reference_mold tolerance) values),
       self).
Proof.
  intros Ht Hd. run_method. induction values as [|mold values IH]; intros compatible.
  - cbn [for_acc List.filter]. run_method. by rewrite app_nil_r.
  - cbn [for_acc List.filter]. run_method.
    assert (is_candidate reference_mold tolerance mold
            = negb (String.eqb (mold_id mold) (mold_id reference_mold))
              && match check_compatibility_with reference_mold mold tolerance tolerance with
                 | Return ok => ok
                 | Raise _ => false
                 end) as -> by done.
    rewrite check_compatibility_with_value by done.
    destruct (negb (String.eqb (mold_id mold) (mold_id reference_mold))); cbn [andb].
    + destruct (_ && _); rewrite IH; [|done].
      by rewrite <- app_assoc.
    + apply IH.
Qed.

(** X22.  For a reference mold whose heating temperature and heating time are
    not 0, [get_compatible_molds] returns, in the order of the database,
    exactly the molds with another id that the reference accepts at the
    tolerance, and leaves the database as it was.  So the reference is
    never in its own result. *)
Theorem get_compatible_molds_filter (reference_mold : Mold) (tolerance : Q)
    (self : MoldDatabase) :
  ¬ (heating_temperature reference_mold == 0)%Q →
  ¬ (heating_time reference_mold == 0)%Q →
  get_compatible_molds reference_mold tolerance self
  = (Return (List.filter (is_candidate reference_mold tolerance) (molds self).*2), self)
  ∧ ∀ found mold,
      returned (get_compatible_molds reference_mold tolerance) self = Return found →
      mold ∈ found →
      mold_id mold ≠ mold_id reference_mold
      ∧ check_compatibility_with reference_mold mold tolerance tolerance = Return true.
Proof.
  intros Ht Hd.
  assert (get_compatible_molds reference_mold tolerance self
          = (Return (List.filter (is_candidate reference_mold tolerance) (molds self).*2),
             self)) as Hrun.
  { unfold get_compatible_molds. run_method.
    by rewrite (get_compatible_molds_loop reference_mold tolerance self _ Ht Hd []). }
  split; [done|]. unfold returned. rewrite Hrun. cbn [fst].
  intros found mold [= <-] Hin.
  apply list_elem_of_In, filter_In in Hin as [_ Hcand].
  unfold is_candidate in Hcand. apply andb_true_iff in Hcand as [Hid Hok].
  split.
  - apply negb_true_iff in Hid. by apply String.eqb_neq.
  - by destruct (check_compatibility_with _ _ _ _) as [?|[]].
Qed.

(** X23.  A reference mold with heating temperature or heating time 0 makes
    [get_compatible_molds] raise ZeroDivisionError as soon as the database
    holds a mold with another id; the database is left as it was. *)
Theorem get_compatible_molds_zero_baseline (reference_mold : Mold) (tolerance : Q)
    (self : MoldDatabase) (mold : Mold) :
  (heating_temperature reference_mold == 0)%Q ∨ (heating_time reference_mold == 0)%Q →
  mold ∈ (molds self).*2 →
  mold_id mold ≠ mold_id reference_mold →
  get_compatible_molds reference_mold tolerance self = (Raise ZeroDivisionError, self).
Proof.
  intros Hzero Hin Hid. unfold get_compatible_molds. run_method.
  generalize (@nil Mold). induction ((molds self).*2) as [|m values IH]; intros compatible.
  - by apply elem_of_nil in Hin.
  - cbn [for_acc]. run_method.
    destruct (String.eqb_spec (mold_id m) (mold_id reference_mold)) as [Heq|Hne];
      cbn [negb].
    + apply elem_of_cons in Hin as [->|Hin]; [done|]. by apply IH.
    + assert (check_compatibility_with reference_mold m tolerance tolerance
              = Raise ZeroDivisionError) as ->; [|done].
      destruct Hzero as [Hz|Hz]; unfold check_compatibility_with.
      * by rewrite (py_truediv_zero _ _ Hz).
      * rewrite (py_truediv_zero _ _ Hz). unfold py_truediv.
        by destruct (Qeq_bool (heating_temperature reference_mold) 0).
Qed.

End MoldCatalog.

Lemma update_availability_lookup_witness :
  returned (get_mold "CCIT 50") (after (update_availability "CCIT 50" 3) catalog)
  = Return (Some (mold_named "CCIT 50" 203 3 (-2))).
Proof.
  destruct (update_availability_lookup "CCIT 50" 3 catalog) as (_ & H & _).
  by apply (H (mold_named "CCIT 50" 203 3 1)).
Defined.

Lemma check_availability_guards_update_witness :
  ∃ mold',
    returned (get_mold "CCIT 60") (after (update_availability "CCIT 60" 4) catalog)
    = Return (Some mold')
    ∧ (check_availability (mold_named "CCIT 60" 270 10 4) 4 = true
       ↔ (0 <= available_quantity mold')%Z).
Proof.
  by apply (check_availability_guards_update "CCIT 60" 4 catalog).
Defined.

Lemma get_compatible_molds_filter_witness :
  get_compatible_molds (mold_named "CCIT 25" 200 3 2) (5 # 100) catalog
  = (Return [mold_named "CCIT 50" 203 3 1], catalog).
Proof.
  destruct (get_compatible_molds_filter (mold_named "CCIT 25" 200 3 2) (5 # 100) catalog)
    as [H _]; [by vm_compute | by vm_compute |].
  exact H.
Defined.

Lemma get_compatible_molds_zero_baseline_witness :
  get_compatible_molds (mold_named "A3" 0 0 0) default_tolerance catalog
  = (Raise ZeroDivisionError, catalog).
Proof.
  apply (get_compatible_molds_zero_baseline _ _ _ (mold_named "CCIT 25" 200 3 2)).
  - left. by vm_compute.
  - cbn. left.
  - done.
Defined.
